(** * Harmonic Oscillator: the positional animation core

    A shallow embedding of [src/components/NumberRow.tsx] (the per-row
    marker computation [stepData]) and of the clock, focus and row-set
    code of the [App] component, together with the properties the
    specification states about them.

    Numbers.  A JavaScript [number] is modelled as an exact rational or
    one of the three special values [Infinity], [-Infinity] and [NaN].
    Rounding of finite results is idealised (finite arithmetic is exact),
    and the two zeros [+0] and [-0] are identified.  [Math.sin] is a
    parameter of the row computation: any function from rationals to
    rationals. *)

From Stdlib Require Import QArith Qround Qabs Qminmax Lqa Lia List ZArith Bool.
From Stdlib Require Import Sorting.Sorted.
From Stdlib Require Reals Lra Qreals.
From Stdlib Require String.
Import ListNotations.

Open Scope Q_scope.

(** ** JavaScript numbers *)

Module JS.

Inductive number : Type :=
| Num (q : Q)
| PInf
| NInf
| NaN.

Definition isFinite (a : number) : bool :=
  match a with Num _ => true | _ => false end.

Definition Qltb (a b : Q) : bool := negb (Qle_bool b a).

(** [Qtrunc] rounds towards zero, as the quotient inside JavaScript's [%]. *)
Definition Qtrunc (a : Q) : Z := Z.quot (Qnum a) (Zpos (Qden a)).

Definition neg (a : number) : number :=
  match a with
  | Num q => Num (- q)
  | PInf => NInf
  | NInf => PInf
  | NaN => NaN
  end.

Definition add (a b : number) : number :=
  match a, b with
  | NaN, _ | _, NaN => NaN
  | Num p, Num q => Num (p + q)
  | PInf, NInf | NInf, PInf => NaN
  | PInf, _ | _, PInf => PInf
  | NInf, _ | _, NInf => NInf
  end.

Definition sub (a b : number) : number := add a (neg b).

(** The sign of an infinity multiplied or divided by a finite value. *)
Definition scaleInf (positive : bool) (q : Q) : number :=
  if Qeq_bool q 0 then NaN
  else if Qltb 0 q then (if positive then PInf else NInf)
  else (if positive then NInf else PInf).

Definition mul (a b : number) : number :=
  match a, b with
  | NaN, _ | _, NaN => NaN
  | Num p, Num q => Num (p * q)
  | PInf, Num q | Num q, PInf => scaleInf true q
  | NInf, Num q | Num q, NInf => scaleInf false q
  | PInf, PInf | NInf, NInf => PInf
  | PInf, NInf | NInf, PInf => NInf
  end.

Definition div (a b : number) : number :=
  match a, b with
  | NaN, _ | _, NaN => NaN
  | Num p, Num q =>
      if Qeq_bool q 0 then scaleInf true p else Num (p / q)
  | Num _, PInf | Num _, NInf => Num 0
  | PInf, Num q => if Qltb q 0 then NInf else PInf
  | NInf, Num q => if Qltb q 0 then PInf else NInf
  | PInf, PInf | PInf, NInf | NInf, PInf | NInf, NInf => NaN
  end.

(** [a % b]: the remainder has the sign of the dividend. *)
Definition rem (a b : number) : number :=
  match a, b with
  | NaN, _ | _, NaN => NaN
  | PInf, _ | NInf, _ => NaN
  | Num p, PInf | Num p, NInf => Num p
  | Num p, Num q =>
      if Qeq_bool q 0 then NaN
      else Num (p - q * inject_Z (Qtrunc (p / q)))
  end.

(** [a < b]; every comparison with [NaN] is false. *)
Definition lt (a b : number) : bool :=
  match a, b with
  | NaN, _ | _, NaN => false
  | Num p, Num q => Qltb p q
  | NInf, NInf => false
  | NInf, _ => true
  | _, PInf => match a with PInf => false | _ => true end
  | _, _ => false
  end.

Definition gt (a b : number) : bool := lt b a.

Definition floor (a : number) : number :=
  match a with
  | Num q => Num (inject_Z (Qfloor q))
  | _ => a
  end.

(** [Math.max] of two arguments. *)
Definition max (a b : number) : number :=
  match a, b with
  | NaN, _ | _, NaN => NaN
  | _, _ => if lt a b then b else a
  end.

(** [Math.sin] lifted from a sine on finite values; the sine of a
    non-finite value is [NaN]. *)
Definition sin (sinQ : Q -> Q) (a : number) : number :=
  match a with
  | Num q => Num (sinQ q)
  | _ => NaN
  end.

Definition ofZ (z : Z) : number := Num (inject_Z z).

(** Equality of numbers as values: rationals up to [Qeq].  [NaN] is
    related to itself here (this is identity of results, not [===]). *)
Definition same (a b : number) : Prop :=
  match a, b with
  | Num p, Num q => p == q
  | PInf, PInf | NInf, NInf | NaN, NaN => True
  | _, _ => False
  end.

(** [a === b] on numbers: [NaN] is not equal to itself. *)
Definition strictEq (a b : number) : bool :=
  match a, b with
  | Num p, Num q => Qeq_bool p q
  | PInf, PInf | NInf, NInf => true
  | _, _ => false
  end.

End JS.

Import JS.

Declare Scope js_scope.
Delimit Scope js_scope with js.
Bind Scope js_scope with number.
Infix "+" := add : js_scope.
Infix "-" := sub : js_scope.
Infix "*" := mul : js_scope.
Infix "/" := div : js_scope.
Infix "%%" := rem (at level 40, left associativity) : js_scope.
Infix "<?" := lt : js_scope.
Infix ">?" := gt (at level 70) : js_scope.
Coercion Num : Q >-> number.

(** ** src/types.ts *)

Inductive TailType : Type :=
| classic
| ghost
| echo
| stepped
| glitch.

(** The numeric and boolean properties of [ExtendedNumberRowProps] that
    [stepData] reads ([label], [colorPalette] and [totalRows] only reach
    the rendering). *)
Record NumberRowProps : Type := mkProps {
  movementValue : number;
  currentStep : number;
  itemSize : number;
  wrapWidth : number;
  shouldWrap : bool;
  rowIndex : Z;
  isTailEnabled : bool;
  isFollowEnabled : bool;
  tailType : TailType;
  focusX : number;
  viewportWidth : number
}.

(** An element of [positions]. *)
Record Marker : Type := mkMarker {
  x : number;
  isHead : bool;
  opacity : number;
  scale : option number
}.

(** ** The eased trigger count

    Lines 36-47 of NumberRow.tsx, the first statements of [stepData], as
    a function of [currentStep] and [movementValue]. *)

Definition transitionWidth : number := Num (1 # 2).

Definition triggerCount (N v : number) : number := floor (N / v)%js.

Definition animatedTriggerCount (N v : number) : number :=
  let currentTriggerCount := floor (N / v)%js in
  let nextTriggerAt := ((currentTriggerCount + Num 1) * v)%js in
  let distToNext := (nextTriggerAt - N)%js in
  if (distToNext <? transitionWidth)%js then
    let t := (Num 1 - distToNext / transitionWidth)%js in
    let easedT := (t * t * (Num 3 - Num 2 * t))%js in
    (currentTriggerCount + easedT)%js
  else currentTriggerCount.

(** ** src/components/NumberRow.tsx *)

Module NumberRow.

Section StepData.

(** [Math.sin] on finite arguments. *)
Variable Math_sin : Q -> Q.

Variable p : NumberRowProps.

Definition effectiveWrap : bool := shouldWrap p && negb (isFollowEnabled p).

Definition quantizedWrapWidth : number :=
  let units := floor (wrapWidth p / itemSize p)%js in
  (max units (Num 1) * itemSize p)%js.

Definition unitStepInPixels : number := (movementValue p * itemSize p)%js.

Definition headAbsoluteDisplacement : number :=
  (animatedTriggerCount (currentStep p) (movementValue p) * unitStepInPixels)%js.

Definition getRelativeX (absDisp : number) : number :=
  if effectiveWrap then (absDisp %% quantizedWrapWidth)%js
  else ((absDisp - focusX p) + (viewportWidth p / Num 2) - (itemSize p / Num 2))%js.

Definition headMarker : Marker :=
  mkMarker (getRelativeX headAbsoluteDisplacement) true (Num 1) None.

(** The [let] declarations of the tail block and the [switch] on
    [tailType]. *)
Definition limit : Z :=
  match tailType p with
  | classic => if effectiveWrap then 80 else 40
  | ghost => 20
  | echo => 60
  | stepped => 100
  | glitch => 30
  end.

Definition stepSize : Z :=
  match tailType p with
  | stepped => 3
  | _ => 1
  end.

Definition opacityBase : Q :=
  match tailType p with
  | ghost => 2 # 10
  | echo => 3 # 10
  | _ => 4 # 10
  end.

Definition lapStartDisplacement : number :=
  if effectiveWrap
  then (floor (headAbsoluteDisplacement / quantizedWrapWidth) * quantizedWrapWidth)%js
  else NInf.

(** One pass through the body of the [for] loop at index [k]: [None] is
    [break], [Some l] the markers pushed by this pass. *)
Definition tailBody (k : Z) : option (list Marker) :=
  let tailTriggerIndex :=
    (animatedTriggerCount (currentStep p) (movementValue p) - ofZ k)%js in
  if (tailTriggerIndex <? Num 0)%js then None
  else
    let tailAbsoluteDisp := (tailTriggerIndex * unitStepInPixels)%js in
    if effectiveWrap && (tailAbsoluteDisp <? lapStartDisplacement)%js then None
    else
      let tx := getRelativeX tailAbsoluteDisp in
      let linear :=
        max (Num 0) (Num opacityBase * (Num 1 - ofZ k / ofZ limit))%js in
      let tailOpacity :=
        match tailType p with
        | echo => if (ofZ k <? Num 10)%js then Num (25 # 100) else Num (5 # 100)
        | _ => linear
        end in
      let tx' :=
        match tailType p with
        | glitch =>
            (tx + sin Math_sin (ofZ k * Num (15 # 10) + currentStep p * Num 5)
                  * Num 4)%js
        | _ => tx
        end in
      let scale :=
        match tailType p with
        | stepped => max (Num (6 # 10)) (Num 1 - ofZ k / ofZ limit)%js
        | _ => Num 1
        end in
      if (tailOpacity >? Num (1 # 100))%js
      then Some [mkMarker tx' false tailOpacity (Some scale)]
      else Some [].

(** [for (let k = ...; k <= limit; k += stepSize)], started at [k]; the
    loop adds [stepSize >= 1] each round, so [fuel] rounds are enough as
    soon as [fuel >= limit + 1 - k] (lemma [tailLoop_fuel]). *)
Fixpoint tailLoop (fuel : nat) (k : Z) : list Marker :=
  match fuel with
  | O => []
  | S fuel' =>
      if (k <=? limit)%Z then
        match tailBody k with
        | None => []
        | Some pushed => pushed ++ tailLoop fuel' (k + stepSize)%Z
        end
      else []
  end.

Definition tailMarkers : list Marker :=
  if isTailEnabled p then tailLoop (Z.to_nat limit) 1%Z else [].

Definition stepData : list Marker := headMarker :: tailMarkers.

End StepData.

(** The colour of a row, as the three arguments of the [hsl(...)] string
    the [color] memo builds: hue, saturation and lightness (the last two
    in percent). *)
Record Hsl : Type := mkHsl {
  hue : number;
  saturation : number;
  lightness : number
}.

Section Color.

Import Stdlib.Strings.String.
Local Open Scope string_scope.

Definition color (rowIndex : Z) (movementValue : number)
  (colorPalette : string) : Hsl :=
  if (rowIndex =? 0)%Z then mkHsl (Num 250) (Num 70) (Num 60)
  else
    let hueOffset := ((movementValue * Num (1375 # 10)) %% Num 360)%js in
    if String.eqb colorPalette "neon" then
      mkHsl ((hueOffset %% Num 60) + Num 280)%js (Num 90) (Num 65)
    else if String.eqb colorPalette "forest" then
      mkHsl ((hueOffset %% Num 80) + Num 120)%js (Num 60) (Num 55)
    else if String.eqb colorPalette "gold" then
      mkHsl ((hueOffset %% Num 40) + Num 35)%js (Num 85) (Num 60)
    else if String.eqb colorPalette "monochrome" then
      mkHsl (Num 0) (Num 0) (Num 70 + (hueOffset %% Num 30))%js
    else
      mkHsl hueOffset (Num 70) (Num 60).

End Color.

(** The [top] offset of the row inside its container:
    [rowIndex * slotHeight], with [slotHeight = itemSize]. *)
Definition rowTop (p : NumberRowProps) : number :=
  (ofZ (rowIndex p) * itemSize p)%js.

End NumberRow.

(** ** The update loop of [HarmonicScene3D] *)

Module Scene3D.

Definition laneWidth : number := Num 12.

(** The rate of the row drawn at loop index [v] (from 1 to [rowCount + 1]). *)
Definition movementValue (v : Z) : Z := if (v =? 1)%Z then 1%Z else (v - 1)%Z.

(** [animatedCount] of the row of rate [movementValue] (lines 103-112). *)
Definition animatedCount (N movementValue : number) : number :=
  let transitionWidth := Num (1 # 2) in
  let curCount := floor (N / movementValue)%js in
  let nextTrig := ((curCount + Num 1) * movementValue)%js in
  let dist := (nextTrig - N)%js in
  if (dist <? transitionWidth)%js then
    let t := (Num 1 - dist / transitionWidth)%js in
    let easedT := (t * t * (Num 3 - Num 2 * t))%js in
    (curCount + easedT)%js
  else curCount.

(** The leader tracking of lines 142-151. *)
Definition focusX (N : number) : number :=
  let transitionWidth := Num (1 # 2) in
  let curCountL := floor N in
  let distL := ((curCountL + Num 1) - N)%js in
  let animCountL :=
    if (distL <? transitionWidth)%js then
      let t := (Num 1 - distL / transitionWidth)%js in
      let easedT := (t * t * (Num 3 - Num 2 * t))%js in
      (curCountL + easedT)%js
    else curCountL in
  (animCountL * laneWidth)%js.

Definition laneSpacing : number := Num 4.

Definition maxBlocksPerRow (isTailEnabled : bool) : Z :=
  if isTailEnabled then 40%Z else 1%Z.

(** The capacity the instanced mesh is created with. *)
Definition maxInstances (rowCount : Z) (isTailEnabled : bool) : Z :=
  ((rowCount + 1) * maxBlocksPerRow isTailEnabled)%Z.

(** What [setMatrixAt] and [setColorAt] receive for one block: the two
    moving coordinates of [dummy.position], the uniform scale and the
    hue handed to [setHSL]. *)
Record Instance : Type := mkInstance {
  positionX : number;
  positionZ : number;
  blockScale : number;
  blockHue : number
}.

Section Update.

Variable N : number.
Variable isTailEnabled : bool.

Definition blocksToShow : Z :=
  if isTailEnabled then maxBlocksPerRow isTailEnabled else 1%Z.

(** One pass of the inner loop of lane [v] at index [k]; [None] is
    [break]. *)
Definition blockBody (v k : Z) : option Instance :=
  let rate := ofZ (movementValue v) in
  let blockCount := (animatedCount N rate - ofZ k)%js in
  if (blockCount <? Num 0)%js then None
  else
    let x := (blockCount * laneWidth)%js in
    let y := (ofZ (v - 1) * neg laneSpacing)%js in
    let scale :=
      if (0 <? k)%Z then (Num 1 * max (Num (1 # 10)) (Num 1 - ofZ k / ofZ blocksToShow))%js
      else Num 1 in
    let hue := ((rate * Num (1375 # 10)) %% Num 360)%js in
    Some (mkInstance x y scale (hue / Num 360)%js).

(** [for (let k = ...; k < blocksToShow; k++)], started at [k]. *)
Fixpoint blockLoop (fuel : nat) (v k : Z) : list Instance :=
  match fuel with
  | O => []
  | S fuel' =>
      if (k <? blocksToShow)%Z then
        match blockBody v k with
        | None => []
        | Some b => b :: blockLoop fuel' v (k + 1)%Z
        end
      else []
  end.

Definition rowBlocks (v : Z) : list Instance :=
  blockLoop (Z.to_nat blocksToShow) v 0%Z.

(** The lanes [v = 1, ..., rowCount + 1] of the outer loop. *)
Definition lanes (rowCount : Z) : list Z :=
  map (fun i => (Z.of_nat i + 1)%Z) (seq 0 (Z.to_nat (rowCount + 1))).

(** The instances written in one [update], in the order of
    [instanceIdx]. *)
Definition update (rowCount : Z) : list Instance :=
  flat_map rowBlocks (lanes rowCount).

End Update.

End Scene3D.

(** A rational stand-in for [Math.sin] used to run the model: the Taylor
    polynomial of degree 15 after reducing the argument by multiples of
    [2 * pi] (with [pi] taken as 355/113), clamped to [-1, 1]. *)
Definition two_pi : Q := 710 # 113.

Definition sinTaylor (r : Q) : Q :=
  let r2 := r * r in
  r * (1 - r2 / 6 * (1 - r2 / 20 * (1 - r2 / 42 * (1 - r2 / 72 *
      (1 - r2 / 110 * (1 - r2 / 156 * (1 - r2 / 210))))))).

Definition sinApprox (a : Q) : Q :=
  let n := Qfloor (a / two_pi + (1 # 2)) in
  let r := Qred (a - inject_Z n * two_pi) in
  Qmax (- (1)) (Qmin 1 (Qred (sinTaylor r))).

(** The row [p] shown at another step value. *)
Definition atStep (p : NumberRowProps) (N : number) : NumberRowProps :=
  mkProps (movementValue p) N (itemSize p) (wrapWidth p) (shouldWrap p)
          (rowIndex p) (isTailEnabled p) (isFollowEnabled p) (tailType p)
          (focusX p) (viewportWidth p).

(** The row [p] with another rate. *)
Definition atRate (p : NumberRowProps) (v : number) : NumberRowProps :=
  mkProps v (currentStep p) (itemSize p) (wrapWidth p) (shouldWrap p)
          (rowIndex p) (isTailEnabled p) (isFollowEnabled p) (tailType p)
          (focusX p) (viewportWidth p).

(** A sample row: rate 1, lanes of width 1, a wrap width of 10 lanes,
    wrapping with a classic tail. *)
Definition sampleRow : NumberRowProps :=
  mkProps (Num 1) (Num 0) (Num 1) (Num 10) true 0 true false classic
          (Num 0) (Num 10).

(** ** The [App] component: clock, focus and row set

    [src/unnamed/part_001], from line 176 on. *)

Module App.

Inductive SyncMode : Type :=
| manual
| seconds
| ms.

Definition SyncMode_eqb (a b : SyncMode) : bool :=
  match a, b with
  | manual, manual | seconds, seconds | ms, ms => true
  | _, _ => false
  end.

(** The [useState] cells of [App], the window size of [useWindowSize]
    and the [lastTimeRef] reference. *)
Record State : Type := mkState {
  currentStep : number;
  isPlaying : bool;
  shouldWrap : bool;
  isTailEnabled : bool;
  tailType : TailType;
  isFollowEnabled : bool;
  speedMultiplier : number;
  rowCount : Z;
  syncMode : SyncMode;
  width : number;
  height : number;
  lastTime : option number
}.

Definition initial (width height : number) : State :=
  mkState (Num 0) false true true classic true (Num (1 # 100)) 15 manual
          width height None.

Definition setCurrentStep (s : State) (n : number) : State :=
  mkState n (isPlaying s) (shouldWrap s) (isTailEnabled s) (tailType s)
          (isFollowEnabled s) (speedMultiplier s) (rowCount s) (syncMode s)
          (width s) (height s) (lastTime s).

Definition setIsPlaying (s : State) (b : bool) : State :=
  mkState (currentStep s) b (shouldWrap s) (isTailEnabled s) (tailType s)
          (isFollowEnabled s) (speedMultiplier s) (rowCount s) (syncMode s)
          (width s) (height s) (lastTime s).

Definition setSyncMode (s : State) (m : SyncMode) : State :=
  mkState (currentStep s) (isPlaying s) (shouldWrap s) (isTailEnabled s)
          (tailType s) (isFollowEnabled s) (speedMultiplier s) (rowCount s) m
          (width s) (height s) (lastTime s).

Definition setSpeedMultiplier (s : State) (v : number) : State :=
  mkState (currentStep s) (isPlaying s) (shouldWrap s) (isTailEnabled s)
          (tailType s) (isFollowEnabled s) v (rowCount s) (syncMode s)
          (width s) (height s) (lastTime s).

Definition setRowCount (s : State) (n : Z) : State :=
  mkState (currentStep s) (isPlaying s) (shouldWrap s) (isTailEnabled s)
          (tailType s) (isFollowEnabled s) (speedMultiplier s) n (syncMode s)
          (width s) (height s) (lastTime s).

Definition setShouldWrap (s : State) (b : bool) : State :=
  mkState (currentStep s) (isPlaying s) b (isTailEnabled s) (tailType s)
          (isFollowEnabled s) (speedMultiplier s) (rowCount s) (syncMode s)
          (width s) (height s) (lastTime s).

Definition setIsTailEnabled (s : State) (b : bool) : State :=
  mkState (currentStep s) (isPlaying s) (shouldWrap s) b (tailType s)
          (isFollowEnabled s) (speedMultiplier s) (rowCount s) (syncMode s)
          (width s) (height s) (lastTime s).

Definition setTailType (s : State) (t : TailType) : State :=
  mkState (currentStep s) (isPlaying s) (shouldWrap s) (isTailEnabled s) t
          (isFollowEnabled s) (speedMultiplier s) (rowCount s) (syncMode s)
          (width s) (height s) (lastTime s).

Definition setIsFollowEnabled (s : State) (b : bool) : State :=
  mkState (currentStep s) (isPlaying s) (shouldWrap s) (isTailEnabled s)
          (tailType s) b (speedMultiplier s) (rowCount s) (syncMode s)
          (width s) (height s) (lastTime s).

Definition setLastTime (s : State) (t : option number) : State :=
  mkState (currentStep s) (isPlaying s) (shouldWrap s) (isTailEnabled s)
          (tailType s) (isFollowEnabled s) (speedMultiplier s) (rowCount s)
          (syncMode s) (width s) (height s) t.

(** [animate(time)], with [now] the value of [Date.now()]. *)
Definition animate (s : State) (time now : number) : State :=
  let s' :=
    if negb (SyncMode_eqb (syncMode s) manual) then
      if SyncMode_eqb (syncMode s) seconds
      then setCurrentStep s (now / Num 1000)%js
      else setCurrentStep s now
    else
      match isPlaying s, lastTime s with
      | true, Some last =>
          let deltaTime := (time - last)%js in
          setCurrentStep s (currentStep s + deltaTime * speedMultiplier s)%js
      | _, _ => s
      end in
  setLastTime s' (Some time).

Definition handlePlayPause (s : State) : State :=
  if negb (SyncMode_eqb (syncMode s) manual) then
    setIsPlaying (setSyncMode s manual) false
  else
    setIsPlaying s (negb (isPlaying s)).

Definition handleStep (s : State) : State :=
  let s1 := if negb (SyncMode_eqb (syncMode s) manual)
            then setSyncMode s manual else s in
  let s2 := setIsPlaying s1 false in
  setCurrentStep s2 (floor (currentStep s2) + Num 1)%js.

Definition handleReset (s : State) : State :=
  setCurrentStep (setIsPlaying (setSyncMode s manual) false) (Num 0).

(** The [onClick] of the three sync-mode buttons. *)
Definition selectSyncMode (s : State) (mode : SyncMode) : State :=
  let s1 := setSyncMode s mode in
  if negb (SyncMode_eqb mode manual) then setIsPlaying s1 false else s1.

(** The [onChange] of the row-count input:
    [setRowCount(Math.max(1, parseInt(e.target.value) || 1))], where
    [parsed] is the integer [parseInt] reads, if any. *)
Definition changeRowCount (s : State) (parsed : option Z) : State :=
  let n := match parsed with
           | Some z => if (z =? 0)%Z then 1%Z else z
           | None => 1%Z
           end in
  setRowCount s (Z.max 1 n).

(** What the user and the display can do; the wrap button is disabled
    while following, the tail-style buttons while the tail is off. *)
Inductive Event : Type :=
| PlayPause
| Step
| Reset
| SelectSyncMode (mode : SyncMode)
| SpeedChange (v : number)
| RowCountChange (parsed : option Z)
| ToggleFollow
| ToggleTail
| ToggleWrap
| SelectTailType (t : TailType)
| Frame (time now : number).

Definition handle (s : State) (e : Event) : State :=
  match e with
  | PlayPause => handlePlayPause s
  | Step => handleStep s
  | Reset => handleReset s
  | SelectSyncMode mode => selectSyncMode s mode
  | SpeedChange v => setSpeedMultiplier s v
  | RowCountChange parsed => changeRowCount s parsed
  | ToggleFollow => setIsFollowEnabled s (negb (isFollowEnabled s))
  | ToggleTail => setIsTailEnabled s (negb (isTailEnabled s))
  | ToggleWrap =>
      if isFollowEnabled s then s else setShouldWrap s (negb (shouldWrap s))
  | SelectTailType t => if isTailEnabled s then setTailType s t else s
  | Frame time now => animate s time now
  end.

(** The states some sequence of events leads to, in a window of a fixed
    size. *)
Inductive reachable (w h : number) : State -> Prop :=
| reachable_initial : reachable w h (initial w h)
| reachable_handle s e : reachable w h s -> reachable w h (handle s e).

Definition totalSlots (s : State) : Z := (rowCount s + 1)%Z.

Definition actualItemSize (s : State) : number :=
  (height s / ofZ (totalSlots s))%js.

(** [Array.from({ length: rowCount }, (_, i) => i + 1)]: a length below
    zero is read as zero. *)
Definition followerRows (s : State) : list Z :=
  map (fun i => (Z.of_nat i + 1)%Z) (seq 0 (Z.to_nat (rowCount s))).

Definition leaderXOffset (s : State) : number :=
  let N := currentStep s in
  let v := Num 1 in
  let curCount := floor (N / v)%js in
  let nextTrig := ((curCount + Num 1) * v)%js in
  let dist := (nextTrig - N)%js in
  let transitionWidth := Num (1 # 2) in
  let animatedCount :=
    if (dist <? transitionWidth)%js then
      let t := (Num 1 - dist / transitionWidth)%js in
      let easedT := (t * t * (Num 3 - Num 2 * t))%js in
      (curCount + easedT)%js
    else curCount in
  (animatedCount * actualItemSize s)%js.

Definition focusX (s : State) : number :=
  if isFollowEnabled s then leaderXOffset s else Num 0.

(** The properties handed to the [NumberRow] of index [rowIndex]. *)
Definition rowProps (s : State) (movementValue : number) (rowIndex : Z)
  : NumberRowProps :=
  mkProps movementValue (currentStep s) (actualItemSize s) (width s)
          (shouldWrap s) rowIndex (isTailEnabled s) (isFollowEnabled s)
          (tailType s) (focusX s) (width s).

Definition leaderRow (s : State) : NumberRowProps := rowProps s (Num 1) 0.

Definition followerRow (s : State) (val : Z) : NumberRowProps :=
  rowProps s (ofZ (val + 1)) val.

(** The rows rendered by [App]: the leader, then one row per element of
    [followerRows]. *)
Definition rows (s : State) : list NumberRowProps :=
  leaderRow s :: map (followerRow s) (followerRows s).

(** The marker lists of one frame, row by row. *)
Definition frame (Math_sin : Q -> Q) (s : State) : list (list Marker) :=
  map (NumberRow.stepData Math_sin) (rows s).

(** A run of animation frames, each with its [time] and [Date.now()]. *)
Definition frames (s : State) (l : list (number * number)) : State :=
  fold_left (fun s' tn => animate s' (fst tn) (snd tn)) l s.

(** The [isPlaying] property handed to [ControlBar], which shows the
    pause icon and disables the step button when it is true. *)
Definition controlBarIsPlaying (s : State) : bool :=
  isPlaying s && SyncMode_eqb (syncMode s) manual.

(** The loop of [activeTurnIndex], from [i] down to 1. *)
Fixpoint activeTurnScan (N : number) (i : nat) : Z :=
  match i with
  | O => 0%Z
  | S j =>
      if strictEq (N %% ofZ (Z.of_nat i))%js (Num 0) then Z.of_nat i
      else activeTurnScan N j
  end.

Definition activeTurnIndex (s : State) : Z :=
  let N := floor (currentStep s) in
  if strictEq N (Num 0) then (-1)%Z
  else activeTurnScan N (Z.to_nat (rowCount s)).

Definition backgroundX (s : State) : number :=
  if negb (isFollowEnabled s) then Num 0
  else
    let rawOffset :=
      ((width s / Num 2) - focusX s - (actualItemSize s / Num 2))%js in
    (((rawOffset %% actualItemSize s) + actualItemSize s)
       %% actualItemSize s)%js.


(** The rows sit in a container shifted down by [actualItemSize]: the
    distance of a row's top edge from the top of the window. *)
Definition rowTopInWindow (s : State) (p : NumberRowProps) : number :=
  (actualItemSize s + NumberRow.rowTop p)%js.

End App.

(** A wrapping row of rate 2 at step value 2 with the glitch tail: lanes
    of width 1 and a wrap width of 10 lanes. *)
Definition glitchRow : NumberRowProps :=
  mkProps (Num 2) (Num 2) (Num 1) (Num 10) true 0 true false glitch
          (Num 0) (Num 10).

(** A row of rate 1 at step value 20 with the echo tail, not wrapping. *)
Definition echoRow : NumberRowProps :=
  mkProps (Num 1) (Num 20) (Num 1) (Num 10) false 0 true false echo
          (Num 0) (Num 10).

(** The initial state in a window of 800 by 600, with [rowCount] set to 0. *)
Definition noFollowers : App.State :=
  App.setRowCount (App.initial (Num 800) (Num 600)) 0.

(** ** The finite reading of the eased trigger count

    On finite arguments with a non-zero rate, [animatedTriggerCount]
    computes the rational [easeQ]. *)

Definition smoothstep (t : Q) : Q := t * t * (3 - 2 * t).

Definition distQ (N v : Q) : Q := (inject_Z (Qfloor (N / v)) + 1) * v - N.

Definition easeQ (N v : Q) : Q :=
  if Qltb (distQ N v) (1 # 2)
  then inject_Z (Qfloor (N / v)) + smoothstep (1 - distQ N v / (1 # 2))
  else inject_Z (Qfloor (N / v)).

(** The trigger count and the easing parameter [t] on finite values. *)
Definition countQ (v N : Q) : Q := inject_Z (Qfloor (N / v)).

Definition easeT (v N : Q) : Q := 1 - distQ N v / (1 # 2).

(** Two markers of a tail, pushed in this order by passes of the loop
    that did not break. *)
Definition pushedInOrder (Math_sin : Q -> Q) (p : NumberRowProps)
  (a b : Marker) : Prop :=
  exists ka kb, (1 <= ka < kb)%Z /\ (kb <= NumberRow.limit p)%Z
                /\ NumberRow.tailBody Math_sin p ka = Some [a]
                /\ NumberRow.tailBody Math_sin p kb = Some [b].

(** The opacity the loop body computes at index [k] before the style's
    own rule: [Math.max(0, opacityBase * (1 - k / limit))]. *)
Definition linearOpacity (p : NumberRowProps) (k : Z) : number :=
  max (Num 0)
      (Num (NumberRow.opacityBase p)
       * (Num 1 - ofZ k / ofZ (NumberRow.limit p)))%js.

(** The absolute displacement of the trailing marker of loop index [k],
    and the jitter the glitch style adds to its position. *)
Definition tailAbsoluteDisp (p : NumberRowProps) (k : Z) : number :=
  ((animatedTriggerCount (currentStep p) (movementValue p) - ofZ k)
   * NumberRow.unitStepInPixels p)%js.

Definition jitter (Math_sin : Q -> Q) (p : NumberRowProps) (k : Z) : number :=
  (sin Math_sin (ofZ k * Num (15 # 10) + currentStep p * Num 5) * Num 4)%js.

(** What a style adds to the position of its trailing marker of loop
    index [k] at the finite step value [N]: the jitter
    [sin(k * 1.5 + N * 5) * 4] for glitch, nothing for the others. *)
Definition styleJitter (Math_sin : Q -> Q) (t : TailType) (N : Q) (k : Z) : Q :=
  match t with
  | glitch => Math_sin (inject_Z k * (15 # 10) + N * 5) * 4
  | _ => 0
  end.

(** The limit of each tail style as the specification tabulates it. *)
Definition styleLimit (t : TailType) (wrapped : bool) : Z :=
  match t with
  | classic => if wrapped then 80 else 40
  | ghost => 20
  | echo => 60
  | stepped => 100
  | glitch => 30
  end.

(** * Properties *)

(** ** Arithmetic of finite numbers *)

Lemma Qltb_lt (a b : Q) : Qltb a b = true <-> a < b.
Proof.
  unfold Qltb. rewrite negb_true_iff, <- not_true_iff_false, Qle_bool_iff.
  split; [apply Qnot_le_lt | apply Qlt_not_le].
Qed.

Lemma Qltb_ge (a b : Q) : Qltb a b = false <-> b <= a.
Proof.
  unfold Qltb. rewrite negb_false_iff, Qle_bool_iff. reflexivity.
Qed.

Lemma Qeq_bool_nonzero (q : Q) : ~ q == 0 -> Qeq_bool q 0 = false.
Proof.
  intros H. apply not_true_iff_false. rewrite Qeq_bool_iff. exact H.
Qed.

Lemma div_finite (a b : Q) : ~ b == 0 -> (Num a / Num b)%js = Num (a / b).
Proof.
  intros H. simpl. rewrite (Qeq_bool_nonzero _ H). reflexivity.
Qed.

Lemma animatedTriggerCount_finite (N v : Q) :
  ~ v == 0 -> animatedTriggerCount (Num N) (Num v) = Num (easeQ N v).
Proof.
  intros Hv. unfold animatedTriggerCount, easeQ, distQ, smoothstep.
  rewrite (div_finite _ _ Hv). simpl.
  destruct (Qltb _ _); reflexivity.
Qed.

(** ** The floor of a quotient *)

Section FloorDiv.

Variables N v : Q.
Hypothesis v_pos : 0 < v.

Lemma floor_div_le : inject_Z (Qfloor (N / v)) * v <= N.
Proof.
  pose proof (Qfloor_le (N / v)) as H.
  apply (Qmult_le_compat_r _ _ v) in H; [| lra].
  setoid_replace (N / v * v) with N in H by (field; lra). exact H.
Qed.

Lemma floor_div_lt : N < (inject_Z (Qfloor (N / v)) + 1) * v.
Proof.
  pose proof (Qlt_floor (N / v)) as H.
  rewrite inject_Z_plus in H.
  apply (Qmult_lt_compat_r _ _ v) in H; [| lra].
  setoid_replace (N / v * v) with N in H by (field; lra). exact H.
Qed.

Lemma floor_div_unique (z : Z) :
  inject_Z z * v <= N -> N < (inject_Z z + 1) * v -> Qfloor (N / v) = z.
Proof.
  intros Hlo Hhi.
  assert (H1 : inject_Z z <= N / v) by (apply Qle_shift_div_l; assumption).
  assert (H2 : N / v < inject_Z z + 1) by (apply Qlt_shift_div_r; assumption).
  pose proof (Qfloor_le (N / v)) as H3.
  pose proof (Qlt_floor (N / v)) as H4.
  rewrite inject_Z_plus in H4. change (inject_Z 1) with 1 in H4.
  revert H1 H2 H3 H4. generalize (N / v). intros q H1 H2 H3 H4.
  assert (H5 : inject_Z z < inject_Z (Qfloor q) + 1) by lra.
  assert (H6 : inject_Z (Qfloor q) < inject_Z z + 1) by lra.
  change 1 with (inject_Z 1) in H5, H6.
  rewrite <- inject_Z_plus in H5, H6. rewrite <- Zlt_Qlt in H5, H6. lia.
Qed.

Lemma distQ_pos : 0 < distQ N v.
Proof. unfold distQ. pose proof floor_div_lt. lra. Qed.

Lemma distQ_le : distQ N v <= v.
Proof. unfold distQ. pose proof floor_div_le. lra. Qed.

End FloorDiv.

(** ** The shape of the ease curve *)

Lemma Qsquare_nonneg (a : Q) : 0 <= a * a.
Proof.
  destruct (Qlt_le_dec a 0) as [H | H].
  - setoid_replace (a * a) with ((- a) * (- a)) by ring.
    apply Qmult_le_0_compat; lra.
  - apply Qmult_le_0_compat; assumption.
Qed.

Lemma smoothstep_nonneg (t : Q) : 0 <= t -> t <= 1 -> 0 <= smoothstep t.
Proof. unfold smoothstep. intros. nra. Qed.

Lemma smoothstep_pos (t : Q) : 0 < t -> t <= 1 -> 0 < smoothstep t.
Proof. unfold smoothstep. intros. nra. Qed.

Lemma smoothstep_lt_1 (t : Q) : 0 <= t -> t < 1 -> smoothstep t < 1.
Proof.
  unfold smoothstep. intros H0 H1.
  assert (H : 0 < (1 - t) * (1 - t) * (1 + 2 * t)).
  { apply Qmult_lt_0_compat; [apply Qmult_lt_0_compat |]; lra. }
  nra.
Qed.

Lemma smoothstep_mono (s t : Q) :
  0 <= s -> s <= t -> t <= 1 -> smoothstep s <= smoothstep t.
Proof.
  unfold smoothstep. intros H0 H1 H2.
  assert (H : 0 <= (t - s) * (2 * (s * (1 - s)) + 2 * (t * (1 - t))
                              + s * (1 - t) + t * (1 - s))).
  { apply Qmult_le_0_compat; [lra |].
    assert (0 <= s * (1 - s)) by (apply Qmult_le_0_compat; lra).
    assert (0 <= t * (1 - t)) by (apply Qmult_le_0_compat; lra).
    assert (0 <= s * (1 - t)) by (apply Qmult_le_0_compat; lra).
    assert (0 <= t * (1 - s)) by (apply Qmult_le_0_compat; lra).
    lra. }
  nra.
Qed.

Lemma smoothstep_strict (s t : Q) :
  0 <= s -> s < t -> t <= 1 -> smoothstep s < smoothstep t.
Proof.
  unfold smoothstep. intros H0 H1 H2.
  assert (H : 0 < (t - s) * (2 * (s * (1 - s)) + 2 * (t * (1 - t))
                             + s * (1 - t) + t * (1 - s))).
  { apply Qmult_lt_0_compat; [lra |].
    assert (0 <= s * (1 - s)) by (apply Qmult_le_0_compat; lra).
    assert (0 <= t * (1 - t)) by (apply Qmult_le_0_compat; lra).
    assert (0 <= s * (1 - t)) by (apply Qmult_le_0_compat; lra).
    assert (0 < t * (1 - s)) by (apply Qmult_lt_0_compat; lra).
    lra. }
  nra.
Qed.

(** The slope of the ease curve is at most 3/2. *)
Lemma smoothstep_slope (s t : Q) :
  s <= t -> smoothstep t - smoothstep s <= (3 # 2) * (t - s).
Proof.
  unfold smoothstep. intros H.
  assert (H1 : 0 <= (t - s) * ((s + t - 1) * (s + t - 1) * (3 # 2)
                               + (s - t) * (s - t) * (1 # 2))).
  { apply Qmult_le_0_compat; [lra |].
    pose proof (Qsquare_nonneg (s + t - 1)).
    pose proof (Qsquare_nonneg (s - t)). lra. }
  nra.
Qed.

(** The curve ends flat: [1 - smoothstep t] is at most [3/2 * (1 - t)]. *)
Lemma smoothstep_to_1 (t : Q) :
  0 <= t -> t <= 1 -> 1 - smoothstep t <= (3 # 2) * (1 - t).
Proof.
  intros H0 H1.
  assert (E : smoothstep 1 == 1) by reflexivity.
  pose proof (smoothstep_slope t 1 H1) as H. lra.
Qed.

Lemma smoothstep_from_0 (t : Q) : 0 <= t -> smoothstep t <= (3 # 2) * t.
Proof.
  intros H0.
  assert (E : smoothstep 0 == 0) by reflexivity.
  pose proof (smoothstep_slope 0 t H0) as H. lra.
Qed.

(** ** The eased count as a function of the step value *)

Section Ease.

Variable v : Q.
Hypothesis v_ge_1 : 1 <= v.

Let v_pos : 0 < v.
Proof. lra. Qed.

Lemma easeT_eq (N : Q) : easeT v N == 1 - 2 * distQ N v.
Proof. unfold easeT. field. Qed.

Lemma easeQ_cases (N : Q) :
  ((1 # 2) <= distQ N v /\ easeQ N v = countQ v N) \/
  (distQ N v < (1 # 2) /\ easeQ N v = countQ v N + smoothstep (easeT v N)).
Proof.
  unfold easeQ, countQ, easeT.
  destruct (Qltb (distQ N v) (1 # 2)) eqn:E.
  - right. split; [apply Qltb_lt; exact E | reflexivity].
  - left. split; [apply Qltb_ge; exact E | reflexivity].
Qed.

Lemma distQ_eq (N : Q) : distQ N v == (countQ v N + 1) * v - N.
Proof. reflexivity. Qed.

Lemma easeT_range (N : Q) : distQ N v < (1 # 2) -> 0 < easeT v N /\ easeT v N < 1.
Proof.
  intros H. pose proof (distQ_pos N v v_pos). pose proof (easeT_eq N). lra.
Qed.

Lemma easeQ_lower (N : Q) : countQ v N <= easeQ N v.
Proof.
  destruct (easeQ_cases N) as [[_ E] | [Hd E]]; rewrite E; [lra |].
  destruct (easeT_range N Hd) as [TN_lo TN_hi].
  pose proof (smoothstep_nonneg (easeT v N)). lra.
Qed.

Lemma easeQ_upper (N : Q) : easeQ N v < countQ v N + 1.
Proof.
  destruct (easeQ_cases N) as [[_ E] | [Hd E]]; rewrite E; [lra |].
  destruct (easeT_range N Hd) as [TN_lo TN_hi].
  pose proof (smoothstep_lt_1 (easeT v N)). lra.
Qed.

(** At a trigger boundary [N = m * v] the count is [m] and no easing is
    under way. *)
Lemma countQ_boundary (m : Z) : countQ v (inject_Z m * v) = inject_Z m.
Proof.
  unfold countQ. f_equal. apply floor_div_unique; [exact v_pos | lra | lra].
Qed.

Lemma easeQ_boundary (m : Z) : easeQ (inject_Z m * v) v = inject_Z m.
Proof.
  destruct (easeQ_cases (inject_Z m * v)) as [[_ E] | [Hd _]].
  - rewrite E. apply countQ_boundary.
  - exfalso. rewrite distQ_eq, countQ_boundary in Hd. lra.
Qed.

(** Just below the boundary [m * v] the count is still [m - 1]. *)
Lemma countQ_below (m : Z) (N : Q) :
  inject_Z m * v - v <= N -> N < inject_Z m * v ->
  countQ v N = inject_Z (m - 1).
Proof.
  intros Hlo Hhi. unfold countQ. f_equal.
  assert (E : inject_Z (m - 1) == inject_Z m - 1).
  { unfold Z.sub. rewrite inject_Z_plus. reflexivity. }
  apply floor_div_unique; [exact v_pos | rewrite E; lra | rewrite E; lra].
Qed.

Lemma countQ_mono (N1 N2 : Q) : N1 <= N2 -> countQ v N1 <= countQ v N2.
Proof.
  intros H. unfold countQ. rewrite <- Zle_Qle. apply Qfloor_resp_le.
  apply Qmult_le_compat_r; [exact H |].
  apply Qlt_le_weak, Qinv_lt_0_compat, v_pos.
Qed.

(** Counts are integers: different counts differ by at least one. *)
Lemma countQ_gap (N1 N2 : Q) :
  N1 <= N2 -> countQ v N1 = countQ v N2 \/ countQ v N1 + 1 <= countQ v N2.
Proof.
  intros H. unfold countQ.
  assert (Hz : (Qfloor (N1 / v) <= Qfloor (N2 / v))%Z).
  { apply Qfloor_resp_le. apply Qmult_le_compat_r; [exact H |].
    apply Qlt_le_weak, Qinv_lt_0_compat, v_pos. }
  destruct (Z.eq_dec (Qfloor (N1 / v)) (Qfloor (N2 / v))) as [E | NE].
  - left. rewrite E. reflexivity.
  - right. change 1 with (inject_Z 1). rewrite <- inject_Z_plus, <- Zle_Qle. lia.
Qed.

(** Within one period ([countQ v N1 = countQ v N2]) the distance to the next
    trigger shrinks as fast as the step value grows. *)
Lemma distQ_same_count (N1 N2 : Q) :
  countQ v N1 = countQ v N2 -> distQ N1 v - distQ N2 v == N2 - N1.
Proof. intros E. rewrite !distQ_eq, E. ring. Qed.

Lemma easeQ_mono (N1 N2 : Q) : N1 <= N2 -> easeQ N1 v <= easeQ N2 v.
Proof.
  intros H. destruct (countQ_gap N1 N2 H) as [E | G].
  - pose proof (distQ_same_count N1 N2 E) as D.
    destruct (easeQ_cases N1) as [[H1 E1] | [H1 E1]];
      destruct (easeQ_cases N2) as [[H2 E2] | [H2 E2]];
      rewrite E1, E2, E.
    + lra.
    + destruct (easeT_range N2 H2) as [TN2_lo TN2_hi].
      pose proof (smoothstep_nonneg (easeT v N2)). lra.
    + lra.
    + destruct (easeT_range N1 H1) as [TN1_lo TN1_hi]. destruct (easeT_range N2 H2) as [TN2_lo TN2_hi].
      pose proof (easeT_eq N1). pose proof (easeT_eq N2).
      pose proof (smoothstep_mono (easeT v N1) (easeT v N2)). lra.
  - pose proof (easeQ_upper N1). pose proof (easeQ_lower N2). lra.
Qed.

(** The count stays put on a plateau: same period, and the later step
    value is still at least [1/2] away from the next trigger. *)
Lemma easeQ_plateau (N1 N2 : Q) :
  N1 <= N2 -> countQ v N1 = countQ v N2 -> (1 # 2) <= distQ N2 v ->
  easeQ N1 v = easeQ N2 v.
Proof.
  intros H E H2. pose proof (distQ_same_count N1 N2 E) as D.
  destruct (easeQ_cases N1) as [[H1 E1] | [H1 E1]];
    destruct (easeQ_cases N2) as [[H2' E2] | [H2' E2]]; try lra.
  rewrite E1, E2, E. reflexivity.
Qed.

(** Off the plateaus the count grows strictly. *)
Lemma easeQ_strict (N1 N2 : Q) :
  N1 < N2 -> countQ v N1 + 1 <= countQ v N2 \/ distQ N2 v < (1 # 2) ->
  easeQ N1 v < easeQ N2 v.
Proof.
  intros H [G | H2].
  - pose proof (easeQ_upper N1). pose proof (easeQ_lower N2). lra.
  - destruct (countQ_gap N1 N2 (Qlt_le_weak _ _ H)) as [E | G].
    + pose proof (distQ_same_count N1 N2 E) as D.
      destruct (easeT_range N2 H2) as [TN2_lo TN2_hi].
      destruct (easeQ_cases N1) as [[H1 E1] | [H1 E1]];
        destruct (easeQ_cases N2) as [[H2' E2] | [_ E2]]; try lra;
        rewrite E1, E2, E.
      * pose proof (smoothstep_pos (easeT v N2)). lra.
      * destruct (easeT_range N1 H1) as [TN1_lo TN1_hi].
        pose proof (easeT_eq N1). pose proof (easeT_eq N2).
        pose proof (smoothstep_strict (easeT v N1) (easeT v N2)). lra.
    + pose proof (easeQ_upper N1). pose proof (easeQ_lower N2). lra.
Qed.

(** The eased count never grows faster than three counts per step unit. *)
Lemma easeQ_slope (N1 N2 : Q) :
  N1 <= N2 -> easeQ N2 v - easeQ N1 v <= 3 * (N2 - N1).
Proof.
  intros H. destruct (countQ_gap N1 N2 H) as [E | G].
  - pose proof (distQ_same_count N1 N2 E) as D.
    destruct (easeQ_cases N1) as [[H1 E1] | [H1 E1]];
      destruct (easeQ_cases N2) as [[H2 E2] | [H2 E2]];
      rewrite E1, E2, E.
    + lra.
    + destruct (easeT_range N2 H2) as [TN2_lo TN2_hi]. pose proof (easeT_eq N2).
      pose proof (smoothstep_from_0 (easeT v N2)). lra.
    + lra.
    + pose proof (easeT_eq N1). pose proof (easeT_eq N2).
      pose proof (smoothstep_slope (easeT v N1) (easeT v N2)). lra.
  - assert (A : countQ v N1 + 1 - easeQ N1 v <= 3 * distQ N1 v).
    { destruct (easeQ_cases N1) as [[H1 E1] | [H1 E1]]; rewrite E1; [lra |].
      destruct (easeT_range N1 H1) as [TN1_lo TN1_hi]. pose proof (easeT_eq N1).
      pose proof (smoothstep_to_1 (easeT v N1)). lra. }
    assert (C : easeQ N2 v - countQ v N2 <= 3 * (v - distQ N2 v)).
    { pose proof (distQ_le N2 v v_pos).
      destruct (easeQ_cases N2) as [[H2 E2] | [H2 E2]]; rewrite E2; [lra |].
      destruct (easeT_range N2 H2) as [TN2_lo TN2_hi].
      pose proof (smoothstep_lt_1 (easeT v N2)). lra. }
    pose proof (distQ_eq N1) as D1. pose proof (distQ_eq N2) as D2.
    assert (B : countQ v N2 - (countQ v N1 + 1)
                <= 3 * ((countQ v N2 - (countQ v N1 + 1)) * v)).
    { nra. }
    nra.
Qed.

Lemma easeQ_lipschitz (N1 N2 : Q) :
  Qabs (easeQ N1 v - easeQ N2 v) <= 3 * Qabs (N1 - N2).
Proof.
  destruct (Qlt_le_dec N1 N2) as [H | H].
  - pose proof (easeQ_mono N1 N2 (Qlt_le_weak _ _ H)).
    pose proof (easeQ_slope N1 N2 (Qlt_le_weak _ _ H)).
    rewrite (Qabs_neg (easeQ N1 v - easeQ N2 v)) by lra.
    rewrite (Qabs_neg (N1 - N2)) by lra. lra.
  - pose proof (easeQ_mono N2 N1 H). pose proof (easeQ_slope N2 N1 H).
    rewrite (Qabs_pos (easeQ N1 v - easeQ N2 v)) by lra.
    rewrite (Qabs_pos (N1 - N2)) by lra. lra.
Qed.

End Ease.

(** ** Continuity at trigger boundaries *)

Lemma animatedTriggerCount_ease (N v : Q) :
  1 <= v -> animatedTriggerCount (Num N) (Num v) = Num (easeQ N v).
Proof. intros Hv. apply animatedTriggerCount_finite. lra. Qed.

Lemma triggerCount_finite (N v : Q) :
  1 <= v -> triggerCount (Num N) (Num v) = Num (countQ v N).
Proof.
  intros Hv. unfold triggerCount. rewrite div_finite by lra. reflexivity.
Qed.

Lemma headAbsoluteDisplacement_finite (p : NumberRowProps) (N v u : Q) :
  1 <= v -> movementValue p = Num v -> itemSize p = Num u ->
  NumberRow.headAbsoluteDisplacement (atStep p (Num N))
  = Num (easeQ N v * (v * u)).
Proof.
  intros Hv Ev Eu.
  unfold NumberRow.headAbsoluteDisplacement, NumberRow.unitStepInPixels.
  simpl. rewrite Ev, Eu, (animatedTriggerCount_ease _ _ Hv). reflexivity.
Qed.

(** C1.  For a rate [v >= 1] and an integer [m], at the trigger boundary
    [N = m * v]: the eased count is exactly [m] there and up to half a
    step past it; within half a step below it the trigger count is still
    [m - 1] while the eased count lies below [m] by at most three times
    the distance to the boundary, so it tends to [triggerCount + 1 = m];
    hence the eased count has limit [m] at the boundary from both sides.
    More generally the eased count moves by at most [3 * |N1 - N2|]
    between any two step values, and the head displacement by at most
    [3 * |v * unitSize| * |N1 - N2|]: both are continuous, with no jump.
    The 3D update loop computes the same eased count. *)
Theorem animatedTriggerCount_continuous (v : Q) (m : Z) :
  1 <= v ->
  animatedTriggerCount (Num (inject_Z m * v)) (Num v) = Num (inject_Z m)
  /\ (forall N, inject_Z m * v <= N -> N <= inject_Z m * v + (1 # 2) ->
      triggerCount (Num N) (Num v) = Num (inject_Z m)
      /\ animatedTriggerCount (Num N) (Num v) = Num (inject_Z m))
  /\ (forall N, inject_Z m * v - (1 # 2) < N -> N < inject_Z m * v ->
      triggerCount (Num N) (Num v) = Num (inject_Z (m - 1))
      /\ exists a, animatedTriggerCount (Num N) (Num v) = Num a
                   /\ a < inject_Z m
                   /\ inject_Z m - a <= 3 * (inject_Z m * v - N))
  /\ (forall eps, 0 < eps -> exists delta, 0 < delta /\
        forall N, Qabs (N - inject_Z m * v) < delta ->
          exists a, animatedTriggerCount (Num N) (Num v) = Num a
                    /\ Qabs (a - inject_Z m) < eps)
  /\ (forall N1 N2, exists a1 a2,
        animatedTriggerCount (Num N1) (Num v) = Num a1
        /\ animatedTriggerCount (Num N2) (Num v) = Num a2
        /\ Qabs (a1 - a2) <= 3 * Qabs (N1 - N2))
  /\ (forall p u N1 N2, movementValue p = Num v -> itemSize p = Num u ->
        exists h1 h2,
          NumberRow.headAbsoluteDisplacement (atStep p (Num N1)) = Num h1
          /\ NumberRow.headAbsoluteDisplacement (atStep p (Num N2)) = Num h2
          /\ Qabs (h1 - h2) <= 3 * Qabs (v * u) * Qabs (N1 - N2))
  /\ (forall N, Scene3D.animatedCount N (Num v) = animatedTriggerCount N (Num v)).
Proof.
  intros Hv.
  assert (Hpos : 0 < v) by lra.
  assert (Hb : easeQ (inject_Z m * v) v = inject_Z m)
    by (apply easeQ_boundary; exact Hv).
  repeat split.
  - rewrite (animatedTriggerCount_ease _ _ Hv), Hb. reflexivity.
  - rewrite (triggerCount_finite _ _ Hv). unfold countQ. do 2 f_equal.
    apply floor_div_unique; [exact Hpos | lra | lra].
  - rewrite (animatedTriggerCount_ease _ _ Hv).
    assert (Ec : countQ v N = inject_Z m).
    { unfold countQ. f_equal.
      apply floor_div_unique; [exact Hpos | lra | lra]. }
    destruct (easeQ_cases v N) as [[_ E] | [Hd _]].
    + rewrite E, Ec. reflexivity.
    + exfalso. rewrite distQ_eq, Ec in Hd. lra.
  - rewrite (triggerCount_finite _ _ Hv). f_equal.
    apply countQ_below; [exact Hv | lra | lra].
  - exists (easeQ N v). split; [apply animatedTriggerCount_ease; exact Hv |].
    assert (Ec : countQ v N = inject_Z (m - 1))
      by (apply countQ_below; [exact Hv | lra | lra]).
    assert (Em : inject_Z (m - 1) == inject_Z m - 1).
    { unfold Z.sub. rewrite inject_Z_plus. reflexivity. }
    pose proof (easeQ_upper v Hv N) as Hu. rewrite Ec, Em in Hu.
    split; [lra |].
    assert (HN : N <= inject_Z m * v) by lra.
    pose proof (easeQ_slope v Hv N (inject_Z m * v) HN) as Hs.
    rewrite Hb in Hs. exact Hs.
  - intros eps Heps. exists (eps / 3). split.
    + apply Qlt_shift_div_l; lra.
    + intros N HN. exists (easeQ N v).
      split; [apply animatedTriggerCount_ease; exact Hv |].
      pose proof (easeQ_lipschitz v Hv N (inject_Z m * v)) as HL.
      rewrite Hb in HL.
      assert (H3 : 3 * Qabs (N - inject_Z m * v) < eps).
      { apply (Qmult_lt_l _ _ 3) in HN; [| lra].
        setoid_replace (3 * (eps / 3)) with eps in HN by field. exact HN. }
      lra.
  - intros N1 N2. exists (easeQ N1 v), (easeQ N2 v).
    split; [apply animatedTriggerCount_ease; exact Hv |].
    split; [apply animatedTriggerCount_ease; exact Hv |].
    apply easeQ_lipschitz; exact Hv.
  - intros p u N1 N2 Ev Eu.
    exists (easeQ N1 v * (v * u)), (easeQ N2 v * (v * u)).
    split; [apply (headAbsoluteDisplacement_finite p N1 v u Hv Ev Eu) |].
    split; [apply (headAbsoluteDisplacement_finite p N2 v u Hv Ev Eu) |].
    setoid_replace (easeQ N1 v * (v * u) - easeQ N2 v * (v * u))
      with ((easeQ N1 v - easeQ N2 v) * (v * u)) by ring.
    rewrite Qabs_Qmult.
    pose proof (easeQ_lipschitz v Hv N1 N2) as HL.
    pose proof (Qabs_nonneg (v * u)) as Hn.
    setoid_replace (3 * Qabs (v * u) * Qabs (N1 - N2))
      with (3 * Qabs (N1 - N2) * Qabs (v * u)) by ring.
    apply Qmult_le_compat_r; assumption.
Qed.

Lemma animatedTriggerCount_continuous_witness :
  animatedTriggerCount (Num (inject_Z 3 * 2)) (Num 2) = Num (inject_Z 3).
Proof.
  assert (H : 1 <= 2) by (unfold Qle; simpl; lia).
  exact (proj1 (animatedTriggerCount_continuous 2 3 H)).
Defined.

(** The 3D scene tracks the leader with the same formula at rate 1. *)
Lemma Qltb_comp (a b c : Q) : a == b -> Qltb a c = Qltb b c.
Proof. intros H. unfold Qltb. rewrite H. reflexivity. Qed.

Lemma scene_focusX_leader (N : Q) :
  same (Scene3D.focusX (Num N))
       (Scene3D.animatedCount (Num N) (Num 1) * Scene3D.laneWidth)%js.
Proof.
  unfold Scene3D.focusX, Scene3D.animatedCount, Scene3D.laneWidth.
  rewrite div_finite by discriminate.
  assert (Ef : Qfloor (N / 1) = Qfloor N) by (apply Qfloor_comp; field).
  unfold floor. rewrite Ef. generalize (inject_Z (Qfloor N)). intros c.
  simpl. rewrite (Qltb_comp ((c + 1) * 1 + - N) (c + 1 + - N)) by ring.
  destruct (Qltb _ _); simpl; [field | ring].
Qed.

(** ** Monotonicity of the head displacement *)

(** C2, counterexample.  Rate 1 and unit size 1: between the step values
    0 and 1/4 the head displacement does not grow (it is 0 at both). *)
Lemma headDisplacement_not_strict :
  0 <= 0 /\ 0 < (1 # 4)
  /\ NumberRow.headAbsoluteDisplacement (atStep sampleRow (Num 0)) = Num 0
  /\ same (NumberRow.headAbsoluteDisplacement (atStep sampleRow (Num (1 # 4))))
          (Num 0)
  /\ (NumberRow.headAbsoluteDisplacement (atStep sampleRow (Num 0))
      <? NumberRow.headAbsoluteDisplacement (atStep sampleRow (Num (1 # 4))))%js
     = false.
Proof. repeat split; vm_compute; congruence. Qed.

(** C2, amended.  For a rate [v >= 1] and a unit size [u > 0] the head
    displacement is non-decreasing in the step value.  It stays equal
    between two step values on one plateau (same trigger count, the later
    one still at least 1/2 before the next trigger) and grows strictly
    otherwise: when the later step value is inside an easing window, when
    the trigger counts differ, and in particular when the step values are
    at least [v] apart. *)
Theorem headDisplacement_monotone (p : NumberRowProps) (v u N1 N2 : Q) :
  1 <= v -> 0 < u -> N1 < N2 ->
  movementValue p = Num v -> itemSize p = Num u ->
  exists h1 h2,
    NumberRow.headAbsoluteDisplacement (atStep p (Num N1)) = Num h1
    /\ NumberRow.headAbsoluteDisplacement (atStep p (Num N2)) = Num h2
    /\ h1 <= h2
    /\ (countQ v N1 = countQ v N2 -> (1 # 2) <= distQ N2 v -> h1 == h2)
    /\ (distQ N2 v < (1 # 2) -> h1 < h2)
    /\ (countQ v N1 <> countQ v N2 -> h1 < h2)
    /\ (N1 + v <= N2 -> h1 < h2).
Proof.
  intros Hv Hu HN Ev Eu.
  assert (Hvu : 0 < v * u) by (apply Qmult_lt_0_compat; lra).
  assert (HN' : N1 <= N2) by lra.
  exists (easeQ N1 v * (v * u)), (easeQ N2 v * (v * u)).
  split; [apply (headAbsoluteDisplacement_finite p N1 v u Hv Ev Eu) |].
  split; [apply (headAbsoluteDisplacement_finite p N2 v u Hv Ev Eu) |].
  assert (Hstrict : easeQ N1 v < easeQ N2 v ->
                    easeQ N1 v * (v * u) < easeQ N2 v * (v * u)).
  { intros H. apply Qmult_lt_compat_r; assumption. }
  assert (Hgap : countQ v N1 <> countQ v N2 -> easeQ N1 v < easeQ N2 v).
  { intros NE. apply (easeQ_strict v Hv N1 N2 HN). left.
    destruct (countQ_gap v Hv N1 N2 HN') as [E | G]; [contradiction | exact G]. }
  repeat split.
  - apply Qmult_le_compat_r; [apply easeQ_mono; assumption | lra].
  - intros E Hd. rewrite (easeQ_plateau v N1 N2 HN' E Hd). reflexivity.
  - intros Hd. apply Hstrict, (easeQ_strict v Hv N1 N2 HN). right. exact Hd.
  - intros NE. apply Hstrict, Hgap, NE.
  - intros Hfar. apply Hstrict, Hgap. intros E.
    pose proof (floor_div_le N1 v ltac:(lra)) as H1.
    pose proof (floor_div_lt N2 v ltac:(lra)) as H2.
    fold (countQ v N1) in H1. fold (countQ v N2) in H2. rewrite E in H1. lra.
Qed.

Lemma headDisplacement_monotone_witness :
  exists h1 h2,
    NumberRow.headAbsoluteDisplacement (atStep sampleRow (Num 0)) = Num h1
    /\ NumberRow.headAbsoluteDisplacement (atStep sampleRow (Num (3 # 4))) = Num h2
    /\ h1 <= h2.
Proof.
  assert (Hv : 1 <= 1) by (unfold Qle; simpl; lia).
  assert (Hu : 0 < 1) by reflexivity.
  assert (HN : 0 < 3 # 4) by reflexivity.
  destruct (headDisplacement_monotone sampleRow 1 1 0 (3 # 4) Hv Hu HN
              eq_refl eq_refl) as (h1 & h2 & E1 & E2 & Hle & _).
  exists h1, h2. auto.
Defined.

(** ** The tail loop *)

Section TailLoop.

Variable Math_sin : Q -> Q.
Variable p : NumberRowProps.

Local Abbreviation tailBody := (NumberRow.tailBody Math_sin p).
Local Abbreviation tailLoop := (NumberRow.tailLoop Math_sin p).
Local Abbreviation limit := (NumberRow.limit p).
Local Abbreviation stepSize := (NumberRow.stepSize p).

Lemma stepSize_pos : (1 <= stepSize)%Z.
Proof. unfold NumberRow.stepSize. destruct (tailType p); lia. Qed.

(** A pass of the loop body pushes at most one marker, never a head. *)
Lemma tailBody_shape (k : Z) (l : list Marker) :
  tailBody k = Some l -> l = [] \/ exists m, l = [m] /\ isHead m = false.
Proof.
  unfold NumberRow.tailBody.
  destruct (_ <? _)%js; [discriminate |].
  destruct (_ && _); [discriminate |].
  destruct (_ >? _)%js; intros E; injection E as <-.
  - right. eexists. split; reflexivity.
  - left. reflexivity.
Qed.

(** More fuel than the loop needs changes nothing. *)
Lemma tailLoop_fuel (fuel : nat) (k : Z) :
  (Z.to_nat (limit + 1 - k) <= fuel)%nat ->
  tailLoop (S fuel) k = tailLoop fuel k.
Proof.
  revert k. induction fuel as [| fuel IH]; intros k Hk.
  - simpl. destruct (k <=? limit)%Z eqn:E; [| reflexivity].
    apply Z.leb_le in E. lia.
  - change (tailLoop (S (S fuel)) k) with
      (if (k <=? limit)%Z then
         match tailBody k with
         | None => []
         | Some pushed => pushed ++ tailLoop (S fuel) (k + stepSize)%Z
         end
       else []).
    change (tailLoop (S fuel) k) with
      (if (k <=? limit)%Z then
         match tailBody k with
         | None => []
         | Some pushed => pushed ++ tailLoop fuel (k + stepSize)%Z
         end
       else []).
    destruct (k <=? limit)%Z eqn:E; [| reflexivity].
    apply Z.leb_le in E. destruct (tailBody k); [| reflexivity].
    rewrite IH; [reflexivity |]. pose proof stepSize_pos. lia.
Qed.

Lemma tailLoop_enough (extra : nat) :
  tailLoop (Z.to_nat limit + extra) 1%Z = tailLoop (Z.to_nat limit) 1%Z.
Proof.
  induction extra as [| extra IH].
  - rewrite Nat.add_0_r. reflexivity.
  - rewrite Nat.add_succ_r, tailLoop_fuel; [exact IH | lia].
Qed.

(** Every marker of the tail was pushed by a pass that did not break, at
    an index within the loop bounds. *)
Lemma tailLoop_In (fuel : nat) (k : Z) (m : Marker) :
  In m (tailLoop fuel k) ->
  exists k', (k <= k' <= limit)%Z /\ tailBody k' = Some [m].
Proof.
  revert k. induction fuel as [| fuel IH]; intros k; simpl; [tauto |].
  destruct (k <=? limit)%Z eqn:E; [| simpl; tauto].
  apply Z.leb_le in E.
  destruct (tailBody k) as [pushed |] eqn:B; [| simpl; tauto].
  intros H. apply in_app_or in H. destruct H as [H | H].
  - destruct (tailBody_shape k pushed B) as [-> | (m' & -> & _)].
    + destruct H.
    + destruct H as [<- | []]. exists k. split; [lia | exact B].
  - destruct (IH _ H) as (k' & Hk' & B'). exists k'.
    pose proof stepSize_pos. split; [lia | exact B'].
Qed.

Lemma tailLoop_length (fuel : nat) (k : Z) :
  (length (tailLoop fuel k) <= Z.to_nat (limit + 1 - k))%nat.
Proof.
  revert k. induction fuel as [| fuel IH]; intros k; simpl; [lia |].
  destruct (k <=? limit)%Z eqn:E; [| simpl; lia].
  apply Z.leb_le in E.
  destruct (tailBody k) as [pushed |] eqn:B; [| simpl; lia].
  rewrite length_app. specialize (IH (k + stepSize)%Z).
  pose proof stepSize_pos.
  destruct (tailBody_shape k pushed B) as [-> | (m' & -> & _)]; simpl; lia.
Qed.

(** The markers of the tail come in the order of their loop indices. *)
Lemma tailLoop_sorted (fuel : nat) (k : Z) :
  (1 <= k)%Z -> StronglySorted (pushedInOrder Math_sin p) (tailLoop fuel k).
Proof.
  revert k. induction fuel as [| fuel IH]; intros k Hk; simpl; [constructor |].
  destruct (k <=? limit)%Z eqn:E; [| constructor].
  apply Z.leb_le in E.
  destruct (tailBody k) as [pushed |] eqn:B; [| constructor].
  pose proof stepSize_pos as Hs.
  assert (IH' : StronglySorted (pushedInOrder Math_sin p)
                               (tailLoop fuel (k + stepSize)%Z))
    by (apply IH; lia).
  destruct (tailBody_shape k pushed B) as [-> | (m & -> & _)]; simpl;
    [exact IH' |].
  constructor; [exact IH' |].
  apply Forall_forall. intros b Hb.
  destruct (tailLoop_In _ _ _ Hb) as (kb & Hkb & Bb).
  exists k, kb. repeat split; try lia; assumption.
Qed.

End TailLoop.

(** ** The head marker and the size of the tail *)

(** C10.  The marker list of a row is never empty: it starts with the
    head marker, which has [isHead = true] and opacity 1; every marker
    after it is a trailing one ([isHead = false]); and with the tail
    disabled the head marker is the only element. *)
Theorem stepData_head_first (Math_sin : Q -> Q) (p : NumberRowProps) :
  exists head tail,
    NumberRow.stepData Math_sin p = head :: tail
    /\ isHead head = true
    /\ opacity head = Num 1
    /\ Forall (fun m => isHead m = false) tail
    /\ (isTailEnabled p = false -> NumberRow.stepData Math_sin p = [head]).
Proof.
  exists (NumberRow.headMarker p), (NumberRow.tailMarkers Math_sin p).
  repeat split.
  - unfold NumberRow.tailMarkers. destruct (isTailEnabled p); [| constructor].
    apply Forall_forall. intros m Hm.
    destruct (tailLoop_In _ _ _ _ _ Hm) as (k & _ & B).
    destruct (tailBody_shape _ _ _ _ B) as [E | (m' & E & Hh)];
      [discriminate | injection E as <-; exact Hh].
  - intros E. unfold NumberRow.stepData, NumberRow.tailMarkers.
    rewrite E. reflexivity.
Qed.

Lemma limit_styleLimit (p : NumberRowProps) :
  NumberRow.limit p = styleLimit (tailType p) (NumberRow.effectiveWrap p).
Proof. reflexivity. Qed.

Lemma limit_pos (p : NumberRowProps) : (0 < NumberRow.limit p)%Z.
Proof.
  unfold NumberRow.limit.
  destruct (tailType p); try lia. destruct (NumberRow.effectiveWrap p); lia.
Qed.

(** The linear falloff on finite values. *)
Lemma linearOpacity_finite (p : NumberRowProps) (k : Z) :
  exists q,
    q == NumberRow.opacityBase p
         * (1 - inject_Z k / inject_Z (NumberRow.limit p))
    /\ linearOpacity p k = (if Qltb 0 q then Num q else Num 0).
Proof.
  unfold linearOpacity, ofZ. rewrite div_finite.
  - eexists. split; [| reflexivity]. reflexivity.
  - pose proof (limit_pos p) as H. intros E.
    unfold Qeq in E. simpl in E. lia.
Qed.

Lemma opacityBase_pos (p : NumberRowProps) : 0 < NumberRow.opacityBase p.
Proof. unfold NumberRow.opacityBase. destruct (tailType p); reflexivity. Qed.

(** The linear falloff decreases strictly along the loop indices. *)
Lemma linearOpacity_decreasing (p : NumberRowProps) (ka kb : Z) :
  (ka < kb)%Z -> (kb <= NumberRow.limit p)%Z ->
  (linearOpacity p kb <? linearOpacity p ka)%js = true.
Proof.
  intros Hab Hb.
  destruct (linearOpacity_finite p ka) as (qa & Ea & ->).
  destruct (linearOpacity_finite p kb) as (qb & Eb & ->).
  pose proof (limit_pos p) as HL. pose proof (opacityBase_pos p) as Hbase.
  revert Ea Eb HL Hbase Hb.
  generalize (NumberRow.limit p), (NumberRow.opacityBase p).
  intros L base Ea Eb HL Hbase Hb.
  assert (HLq : 0 < inject_Z L) by (change 0 with (inject_Z 0); rewrite <- Zlt_Qlt; lia).
  assert (Hka : inject_Z ka / inject_Z L < inject_Z kb / inject_Z L).
  { apply Qmult_lt_compat_r; [apply Qinv_lt_0_compat; exact HLq |].
    rewrite <- Zlt_Qlt. exact Hab. }
  assert (Hkb : inject_Z kb / inject_Z L <= 1).
  { apply Qle_shift_div_r; [exact HLq |]. rewrite Qmult_1_l, <- Zle_Qle. exact Hb. }
  revert Ea Eb Hka Hkb.
  generalize (inject_Z ka / inject_Z L), (inject_Z kb / inject_Z L).
  intros ra rb Ea Eb Hka Hkb.
  assert (Hqb : 0 <= qb) by (rewrite Eb; apply Qmult_le_0_compat; lra).
  assert (Hqa : qb < qa) by (rewrite Ea, Eb; nra).
  assert (Ta : Qltb 0 qa = true) by (apply Qltb_lt; lra).
  rewrite Ta.
  destruct (Qltb 0 qb); simpl; apply Qltb_lt; lra.
Qed.

Lemma StronglySorted_weaken {A : Type} (R S : A -> A -> Prop) (l : list A) :
  (forall a b, R a b -> S a b) -> StronglySorted R l -> StronglySorted S l.
Proof.
  intros HRS H. induction H as [| a l Hl IH Ha]; constructor.
  - exact IH.
  - revert Ha. apply Forall_impl. intros b. apply HRS.
Qed.

(** What a pass of the classic style pushes. *)
Lemma tailBody_classic (Math_sin : Q -> Q) (p : NumberRowProps)
  (k : Z) (m : Marker) :
  tailType p = classic ->
  NumberRow.tailBody Math_sin p k = Some [m] ->
  opacity m = linearOpacity p k /\ (opacity m >? Num (1 # 100))%js = true.
Proof.
  intros Ht. unfold NumberRow.tailBody. rewrite Ht.
  destruct (_ <? _)%js; [discriminate |].
  destruct (_ && _); [discriminate |].
  fold (linearOpacity p k).
  destruct (linearOpacity p k >? Num (1 # 100))%js eqn:G;
    intros E; [| discriminate].
  injection E as <-. simpl. split; [reflexivity | exact G].
Qed.

Lemma linearOpacity_classic (p : NumberRowProps) (k : Z) :
  tailType p = classic ->
  same (linearOpacity p k)
       (Num (Qmax 0 ((4 # 10) * (1 - inject_Z k
               / inject_Z (styleLimit classic (NumberRow.effectiveWrap p)))))).
Proof.
  intros Ht. destruct (linearOpacity_finite p k) as (q & Eq & ->).
  assert (EL : NumberRow.limit p = styleLimit classic (NumberRow.effectiveWrap p))
    by (rewrite limit_styleLimit, Ht; reflexivity).
  assert (Eb : NumberRow.opacityBase p = 4 # 10)
    by (unfold NumberRow.opacityBase; rewrite Ht; reflexivity).
  rewrite EL, Eb in Eq.
  destruct (Qltb 0 q) eqn:T; simpl; rewrite <- Eq.
  - apply Qltb_lt in T. symmetry. apply Q.max_r. lra.
  - apply Qltb_ge in T. symmetry. apply Q.max_l. exact T.
Qed.

(** C6.  For every style, wrap state and input the tail has at most
    [limit] markers (40 or 80 for classic, 20 ghost, 60 echo, 100 stepped,
    30 glitch).  For the classic style each emitted trailing marker has
    the opacity [max(0, 0.4 * (1 - k / limit))] of its loop index [k],
    which is above the cutoff 0.01, and along the tail the opacities
    decrease strictly. *)
Theorem tail_within_limit (Math_sin : Q -> Q) (p : NumberRowProps) :
  (length (NumberRow.tailMarkers Math_sin p)
   <= Z.to_nat (styleLimit (tailType p) (NumberRow.effectiveWrap p)))%nat
  /\ (tailType p = classic ->
      StronglySorted (fun a b => (opacity b <? opacity a)%js = true)
                     (NumberRow.tailMarkers Math_sin p)
      /\ Forall (fun m =>
                  (opacity m >? Num (1 # 100))%js = true
                  /\ exists k,
                       (1 <= k <= styleLimit classic (NumberRow.effectiveWrap p))%Z
                       /\ same (opacity m)
                               (Num (Qmax 0 ((4 # 10) * (1 - inject_Z k
                                  / inject_Z (styleLimit classic
                                                (NumberRow.effectiveWrap p)))))))
                (NumberRow.tailMarkers Math_sin p)).
Proof.
  split.
  - rewrite <- limit_styleLimit. unfold NumberRow.tailMarkers.
    destruct (isTailEnabled p); [| simpl; lia].
    pose proof (tailLoop_length Math_sin p (Z.to_nat (NumberRow.limit p)) 1).
    lia.
  - intros Ht. unfold NumberRow.tailMarkers.
    destruct (isTailEnabled p); [| split; constructor].
    split.
    + apply (StronglySorted_weaken (pushedInOrder Math_sin p));
        [| apply tailLoop_sorted; lia].
      intros a b (ka & kb & Hk & Hl & Ba & Bb).
      destruct (tailBody_classic _ _ _ _ Ht Ba) as [-> _].
      destruct (tailBody_classic _ _ _ _ Ht Bb) as [-> _].
      apply linearOpacity_decreasing; lia.
    + apply Forall_forall. intros m Hm.
      destruct (tailLoop_In _ _ _ _ _ Hm) as (k & Hk & B).
      destruct (tailBody_classic _ _ _ _ Ht B) as [E G].
      split; [exact G |]. exists k. split.
      * rewrite limit_styleLimit, Ht in Hk. exact Hk.
      * rewrite E. apply linearOpacity_classic. exact Ht.
Qed.

(** ** The play/pause control *)

(** C7.  Pressed in a wall-sync mode, play/pause switches to the manual
    mode with [isPlaying = false], and the next frame leaves the step
    value where it is (motion is not resumed); pressed in the manual mode
    it toggles [isPlaying].  Nothing else of the state changes.  This
    holds in every state, reachable or not. *)
Theorem handlePlayPause_spec (s : App.State) :
  (App.syncMode s <> App.manual ->
     App.syncMode (App.handlePlayPause s) = App.manual
     /\ App.isPlaying (App.handlePlayPause s) = false
     /\ forall time now,
          App.currentStep (App.animate (App.handlePlayPause s) time now)
          = App.currentStep s)
  /\ (App.syncMode s = App.manual ->
     App.syncMode (App.handlePlayPause s) = App.manual
     /\ App.isPlaying (App.handlePlayPause s) = negb (App.isPlaying s))
  /\ App.handle s App.PlayPause = App.handlePlayPause s
  /\ App.currentStep (App.handlePlayPause s) = App.currentStep s
  /\ App.speedMultiplier (App.handlePlayPause s) = App.speedMultiplier s
  /\ App.rowCount (App.handlePlayPause s) = App.rowCount s.
Proof.
  unfold App.handlePlayPause.
  destruct s as [N playing wrap tail tt follow speed rc mode w h last].
  destruct mode; simpl; repeat split; try congruence; try reflexivity.
Qed.

(** ** The row set *)

(** C8, counterexample.  With [rowCount = 0] the frame is not empty: it
    holds the leader row, whose marker list holds the head marker. *)
Lemma frame_not_empty_without_rows :
  (App.rowCount noFollowers <= 0)%Z
  /\ length (App.rows noFollowers) = 1%nat
  /\ exists m, App.frame sinApprox noFollowers = [[m]]
               /\ isHead m = true /\ same (x m) (Num 100).
Proof.
  split; [vm_compute; congruence |]. split; [reflexivity |].
  eexists. split; [vm_compute; reflexivity |].
  split; [reflexivity | vm_compute; reflexivity].
Qed.

(** C8, amended.  For every [rowCount <= 0] the set of follower rows is
    empty and the frame consists of the leader row alone, which is always
    rendered and whose marker list is not empty. *)
Theorem frame_without_followers (Math_sin : Q -> Q) (s : App.State) :
  (App.rowCount s <= 0)%Z ->
  App.followerRows s = []
  /\ App.rows s = [App.leaderRow s]
  /\ App.frame Math_sin s = [NumberRow.stepData Math_sin (App.leaderRow s)]
  /\ exists head tail,
       NumberRow.stepData Math_sin (App.leaderRow s) = head :: tail
       /\ isHead head = true.
Proof.
  intros H.
  assert (E : App.followerRows s = []).
  { unfold App.followerRows.
    replace (Z.to_nat (App.rowCount s)) with 0%nat by lia. reflexivity. }
  repeat split.
  - exact E.
  - unfold App.rows. rewrite E. reflexivity.
  - unfold App.frame, App.rows. rewrite E. reflexivity.
  - eexists. eexists. split; reflexivity.
Qed.

Lemma frame_without_followers_witness :
  App.followerRows noFollowers = []
  /\ App.rows noFollowers = [App.leaderRow noFollowers].
Proof.
  assert (H : (App.rowCount noFollowers <= 0)%Z) by (simpl; lia).
  destruct (frame_without_followers sinApprox noFollowers H) as (E1 & E2 & _).
  split; assumption.
Defined.

(** ** The leader under follow mode *)

Lemma leaderXOffset_eq (s : App.State) :
  App.leaderXOffset s
  = (animatedTriggerCount (App.currentStep s) (Num 1) * App.actualItemSize s)%js.
Proof. reflexivity. Qed.

Lemma actualItemSize_finite (s : App.State) (h : Q) :
  (0 <= App.rowCount s)%Z -> App.height s = Num h ->
  App.actualItemSize s = Num (h / inject_Z (App.rowCount s + 1)).
Proof.
  intros Hrc Eh. unfold App.actualItemSize, App.totalSlots, ofZ.
  rewrite Eh. apply div_finite.
  intros E. unfold Qeq in E. simpl in E. lia.
Qed.

(** C5.  With follow enabled, a finite step value (an integer in
    particular) and at least zero follower rows, the head marker of the
    leader row sits at [viewportWidth / 2 - itemSize / 2]: the focus
    [leaderXOffset] evaluates the formula of the leader's own head
    displacement, and the two cancel. *)
Theorem leader_centred_when_following
  (Math_sin : Q -> Q) (s : App.State) (N w h : Q) :
  (0 <= App.rowCount s)%Z ->
  App.isFollowEnabled s = true ->
  App.currentStep s = Num N -> App.width s = Num w -> App.height s = Num h ->
  exists head tail u,
    NumberRow.stepData Math_sin (App.leaderRow s) = head :: tail
    /\ isHead head = true
    /\ viewportWidth (App.leaderRow s) = Num w
    /\ itemSize (App.leaderRow s) = Num u
    /\ same (App.focusX s) (NumberRow.headAbsoluteDisplacement (App.leaderRow s))
    /\ same (x head) (Num (w / 2 - u / 2)).
Proof.
  intros Hrc Hf EN Ew Eh.
  pose proof (actualItemSize_finite s h Hrc Eh) as Eu.
  exists (NumberRow.headMarker (App.leaderRow s)),
         (NumberRow.tailMarkers Math_sin (App.leaderRow s)),
         (h / inject_Z (App.rowCount s + 1)).
  split; [reflexivity |]. split; [reflexivity |].
  split; [exact Ew |]. split; [exact Eu |].
  assert (Hone : 1 <= 1) by (unfold Qle; simpl; lia).
  unfold NumberRow.headMarker, NumberRow.getRelativeX, NumberRow.effectiveWrap,
    NumberRow.headAbsoluteDisplacement, NumberRow.unitStepInPixels.
  simpl. unfold App.focusX.
  rewrite Hf, andb_false_r, leaderXOffset_eq, Eu, EN, Ew.
  rewrite (animatedTriggerCount_ease N 1 Hone). simpl. split; ring.
Qed.

Lemma leader_centred_when_following_witness :
  exists head tail,
    NumberRow.stepData sinApprox
      (App.leaderRow (App.setCurrentStep (App.initial (Num 800) (Num 600)) (Num 7)))
    = head :: tail
    /\ same (x head) (Num (800 / 2 - (600 / 16) / 2)).
Proof.
  destruct (leader_centred_when_following sinApprox
              (App.setCurrentStep (App.initial (Num 800) (Num 600)) (Num 7))
              7 800 600 ltac:(simpl; lia) eq_refl eq_refl eq_refl eq_refl)
    as (head & tail & u & E & _ & _ & Eu & _ & Hx).
  exists head, tail. split; [exact E |].
  injection Eu as <-. exact Hx.
Defined.

(** What a pass of the loop body pushes, and when it does not break. *)
Lemma tailBody_marker (Math_sin : Q -> Q) (p : NumberRowProps)
  (k : Z) (m : Marker) :
  NumberRow.tailBody Math_sin p k = Some [m] ->
  (animatedTriggerCount (currentStep p) (movementValue p) - ofZ k <? Num 0)%js
  = false
  /\ NumberRow.effectiveWrap p
     && (tailAbsoluteDisp p k <? NumberRow.lapStartDisplacement p)%js = false
  /\ x m = match tailType p with
           | glitch => (NumberRow.getRelativeX p (tailAbsoluteDisp p k)
                        + jitter Math_sin p k)%js
           | _ => NumberRow.getRelativeX p (tailAbsoluteDisp p k)
           end.
Proof.
  unfold NumberRow.tailBody. fold (tailAbsoluteDisp p k).
  destruct (_ <? _)%js; [discriminate |].
  destruct (_ && _); [discriminate |].
  destruct (_ >? _)%js; intros E; [| discriminate].
  injection E as <-. simpl.
  split; [reflexivity |]. split; [reflexivity |].
  unfold jitter. destruct (tailType p); reflexivity.
Qed.

(** ** Remainders and the wrap width *)

(** On a non-negative rational, rounding towards zero is the floor. *)
Lemma Qtrunc_nonneg (a : Q) : 0 <= a -> Qtrunc a = Qfloor a.
Proof.
  intros H. destruct a as [n d]. unfold Qtrunc, Qfloor. simpl.
  apply Z.quot_div_nonneg; [| lia].
  unfold Qle in H. simpl in H. lia.
Qed.

(** The remainder of a non-negative value by a positive width. *)
Lemma rem_range (a W : Q) :
  0 <= a -> 0 < W ->
  exists r, (Num a %% Num W)%js = Num r /\ 0 <= r /\ r < W.
Proof.
  intros Ha HW. simpl. rewrite Qeq_bool_nonzero by lra.
  eexists. split; [reflexivity |].
  assert (Hq : 0 <= a / W).
  { apply Qle_shift_div_l; [exact HW | lra]. }
  rewrite (Qtrunc_nonneg _ Hq).
  pose proof (floor_div_le a W HW). pose proof (floor_div_lt a W HW).
  split; lra.
Qed.

Section Wrapped.

Variable Math_sin : Q -> Q.
Variable p : NumberRowProps.
Variables N v u w : Q.

Hypothesis step_finite : currentStep p = Num N.
Hypothesis rate_finite : movementValue p = Num v.
Hypothesis size_finite : itemSize p = Num u.
Hypothesis width_finite : wrapWidth p = Num w.
Hypothesis step_nonneg : 0 <= N.
Hypothesis rate_ge_1 : 1 <= v.
Hypothesis size_pos : 0 < u.
Hypothesis wrapped : NumberRow.effectiveWrap p = true.

Lemma quantizedWrapWidth_finite :
  exists W, NumberRow.quantizedWrapWidth p = Num W /\ u <= W.
Proof.
  unfold NumberRow.quantizedWrapWidth.
  rewrite width_finite, size_finite, div_finite by lra. simpl.
  destruct (Qltb _ 1) eqn:E; simpl; eexists; (split; [reflexivity |]).
  - lra.
  - apply Qltb_ge in E. revert E. generalize (inject_Z (Qfloor (w / u))).
    intros c E. nra.
Qed.

Lemma easeQ_nonneg : 0 <= easeQ N v.
Proof.
  pose proof (easeQ_lower v rate_ge_1 N) as H.
  assert (H0 : 0 <= countQ v N).
  { unfold countQ. change 0 with (inject_Z 0). rewrite <- Zle_Qle.
    change 0%Z with (Qfloor 0). apply Qfloor_resp_le.
    apply Qle_shift_div_l; lra. }
  lra.
Qed.

Lemma getRelativeX_range (a W : Q) :
  NumberRow.quantizedWrapWidth p = Num W -> 0 < W -> 0 <= a ->
  exists r, NumberRow.getRelativeX p (Num a) = Num r /\ 0 <= r /\ r < W.
Proof.
  intros EW HW Ha. unfold NumberRow.getRelativeX. rewrite wrapped, EW.
  apply rem_range; assumption.
Qed.

Lemma headAbsoluteDisplacement_nonneg :
  exists a, NumberRow.headAbsoluteDisplacement p = Num a /\ 0 <= a.
Proof.
  unfold NumberRow.headAbsoluteDisplacement, NumberRow.unitStepInPixels.
  rewrite step_finite, rate_finite, size_finite.
  rewrite (animatedTriggerCount_ease _ _ rate_ge_1). simpl.
  eexists. split; [reflexivity |].
  pose proof easeQ_nonneg. apply Qmult_le_0_compat; [assumption |].
  apply Qmult_le_0_compat; lra.
Qed.

(** A pass that does not break works on a non-negative displacement. *)
Lemma tailAbsoluteDisp_nonneg (k : Z) (m : Marker) :
  NumberRow.tailBody Math_sin p k = Some [m] ->
  exists a, tailAbsoluteDisp p k = Num a /\ 0 <= a.
Proof.
  intros B. destruct (tailBody_marker _ _ _ _ B) as (Hidx & _ & _).
  unfold tailAbsoluteDisp, NumberRow.unitStepInPixels.
  rewrite step_finite, rate_finite, size_finite in *.
  rewrite (animatedTriggerCount_ease _ _ rate_ge_1) in *. simpl in *.
  apply Qltb_ge in Hidx.
  eexists. split; [reflexivity |].
  apply Qmult_le_0_compat; [exact Hidx |]. apply Qmult_le_0_compat; lra.
Qed.

End Wrapped.

(** ** Non-finite values *)

Lemma scaleInf_nonfinite (positive : bool) (q : Q) :
  isFinite (scaleInf positive q) = false.
Proof.
  unfold scaleInf.
  destruct (Qeq_bool q 0), (Qltb 0 q), positive; reflexivity.
Qed.

Lemma scaleInf_zero (positive : bool) (q : Q) :
  q == 0 -> scaleInf positive q = NaN.
Proof.
  intros H. unfold scaleInf.
  rewrite (proj2 (Qeq_bool_iff q 0) H). reflexivity.
Qed.

Lemma add_nonfinite_l (a b : number) :
  isFinite a = false -> isFinite (a + b)%js = false.
Proof. destruct a, b; simpl; congruence. Qed.

Lemma sub_nonfinite_l (a b : number) :
  isFinite a = false -> isFinite (a - b)%js = false.
Proof. destruct a, b; simpl; congruence. Qed.

Lemma mul_nonfinite_l (a b : number) :
  isFinite a = false -> isFinite (a * b)%js = false.
Proof.
  destruct a, b; simpl; try congruence; intros _; apply scaleInf_nonfinite.
Qed.

Lemma div_nonfinite_l (a b : number) :
  isFinite a = false -> isFinite (a / b)%js = false.
Proof.
  destruct a, b; simpl; try congruence; intros _;
    destruct (Qltb q 0); reflexivity.
Qed.

Lemma floor_nonfinite (a : number) :
  isFinite a = false -> floor a = a.
Proof. destruct a; simpl; congruence. Qed.

Lemma rem_nonfinite_l (a b : number) :
  isFinite a = false -> (a %% b)%js = NaN.
Proof. destruct a, b; simpl; congruence. Qed.

(** The eased count is not finite when the quotient [N / v] is not. *)
Lemma animatedTriggerCount_nonfinite_quotient (N v : number) :
  isFinite (N / v)%js = false -> isFinite (animatedTriggerCount N v) = false.
Proof.
  intros Hd. unfold animatedTriggerCount. rewrite (floor_nonfinite _ Hd).
  destruct (_ <? _)%js; [apply add_nonfinite_l |]; exact Hd.
Qed.

Lemma animatedTriggerCount_nonfinite (N v : number) :
  isFinite N = false -> isFinite (animatedTriggerCount N v) = false.
Proof.
  intros H. apply animatedTriggerCount_nonfinite_quotient, div_nonfinite_l, H.
Qed.

Lemma getRelativeX_nonfinite (p : NumberRowProps) (d : number) :
  isFinite d = false ->
  isFinite (NumberRow.getRelativeX p d) = false
  /\ (NumberRow.effectiveWrap p = true -> NumberRow.getRelativeX p d = NaN).
Proof.
  intros H. unfold NumberRow.getRelativeX.
  destruct (NumberRow.effectiveWrap p).
  - rewrite (rem_nonfinite_l _ _ H). split; reflexivity.
  - split; [| discriminate].
    apply sub_nonfinite_l, add_nonfinite_l, sub_nonfinite_l, H.
Qed.

(** C9, counterexample.  The sample row at the step value 0 has its one
    marker at position 0; at the step values [NaN] and [Infinity] the
    head marker is at [NaN]. *)
Lemma nonfinite_step_not_clamped :
  (exists m, NumberRow.stepData sinApprox (atStep sampleRow (Num 0)) = [m]
             /\ same (x m) (Num 0))
  /\ (exists m tail,
        NumberRow.stepData sinApprox (atStep sampleRow NaN) = m :: tail
        /\ x m = NaN)
  /\ (exists m tail,
        NumberRow.stepData sinApprox (atStep sampleRow PInf) = m :: tail
        /\ x m = NaN).
Proof.
  split; [| split].
  - eexists. split; [vm_compute; reflexivity | vm_compute; reflexivity].
  - eexists. eexists. split; [reflexivity | vm_compute; reflexivity].
  - eexists. eexists. split; [reflexivity | vm_compute; reflexivity].
Qed.

(** At the step value 0 a row with a finite configuration shows its head
    marker alone, at a finite position. *)
Lemma stepData_at_zero (Math_sin : Q -> Q) (p : NumberRowProps)
  (v u w f vw : Q) :
  movementValue p = Num v -> 1 <= v -> itemSize p = Num u -> 0 < u ->
  wrapWidth p = Num w -> focusX p = Num f -> viewportWidth p = Num vw ->
  exists X, NumberRow.stepData Math_sin (atStep p (Num 0))
            = [mkMarker (Num X) true (Num 1) None].
Proof.
  intros Ev Hv Eu Hu Ew Ef Evw.
  assert (Ea : animatedTriggerCount (Num 0) (Num v) = Num (inject_Z 0)).
  { rewrite (animatedTriggerCount_ease _ _ Hv). f_equal.
    assert (Ec : countQ v 0 = inject_Z 0).
    { unfold countQ. destruct v as [n d]. reflexivity. }
    destruct (easeQ_cases v 0) as [[_ E] | [Hd _]].
    - rewrite E. exact Ec.
    - exfalso. rewrite distQ_eq, Ec in Hd. change (inject_Z 0) with 0 in Hd. lra. }
  assert (Etail : NumberRow.tailMarkers Math_sin (atStep p (Num 0)) = []).
  { unfold NumberRow.tailMarkers. destruct (isTailEnabled _); [| reflexivity].
    pose proof (limit_pos (atStep p (Num 0))) as HL.
    destruct (Z.to_nat (NumberRow.limit (atStep p (Num 0)))) eqn:En; [lia |].
    simpl. destruct (1 <=? _)%Z; [| reflexivity].
    unfold NumberRow.tailBody. simpl. rewrite Ev, Ea. reflexivity. }
  assert (Ehead : exists a, NumberRow.headAbsoluteDisplacement (atStep p (Num 0))
                            = Num a /\ 0 <= a).
  { unfold NumberRow.headAbsoluteDisplacement, NumberRow.unitStepInPixels.
    simpl. rewrite Ev, Eu, Ea. simpl. eexists. split; [reflexivity |].
    change (inject_Z 0) with 0. lra. }
  destruct Ehead as (a & Eh & Ha).
  assert (Ex : exists X, NumberRow.getRelativeX (atStep p (Num 0)) (Num a) = Num X).
  { destruct (NumberRow.effectiveWrap (atStep p (Num 0))) eqn:Hw.
    - destruct (quantizedWrapWidth_finite (atStep p (Num 0)) u w Eu Ew Hu)
        as (W & EW & HW).
      destruct (getRelativeX_range (atStep p (Num 0)) Hw a W EW ltac:(lra) Ha)
        as (r & Er & _).
      exists r. exact Er.
    - unfold NumberRow.getRelativeX. rewrite Hw. simpl.
      rewrite Ef, Evw, Eu. simpl. eexists. reflexivity. }
  destruct Ex as (X & EX). exists X.
  unfold NumberRow.stepData, NumberRow.headMarker. rewrite Etail, Eh, EX.
  reflexivity.
Qed.

(** C9, amended.  Nothing clamps the step value: when it is not finite,
    every marker position of the row is itself not finite, and is [NaN]
    in wrapped mode.  These are not the positions of the step value 0:
    there a row with a finite configuration (rate at least 1, positive
    item size) shows its head marker alone, at a finite position. *)
Theorem nonfinite_step_propagates
  (Math_sin : Q -> Q) (p : NumberRowProps) (N : number) :
  isFinite N = false ->
  Forall (fun m => isFinite (x m) = false)
         (NumberRow.stepData Math_sin (atStep p N))
  /\ (NumberRow.effectiveWrap p = true ->
      Forall (fun m => x m = NaN) (NumberRow.stepData Math_sin (atStep p N)))
  /\ (forall v u w f vw,
        movementValue p = Num v -> 1 <= v -> itemSize p = Num u -> 0 < u ->
        wrapWidth p = Num w -> focusX p = Num f -> viewportWidth p = Num vw ->
        exists X, NumberRow.stepData Math_sin (atStep p (Num 0))
                  = [mkMarker (Num X) true (Num 1) None]).
Proof.
  intros H.
  split; [| split]; [| | intros v u w f vw; apply stepData_at_zero].
  - set (q := atStep p N).
    assert (Ha : isFinite (animatedTriggerCount (currentStep q) (movementValue q))
                 = false) by (apply animatedTriggerCount_nonfinite, H).
    unfold NumberRow.stepData. constructor.
    + apply getRelativeX_nonfinite, mul_nonfinite_l, Ha.
    + unfold NumberRow.tailMarkers. destruct (isTailEnabled q); [| constructor].
      apply Forall_forall. intros m Hm.
      destruct (tailLoop_In _ _ _ _ _ Hm) as (k & _ & B).
      destruct (tailBody_marker _ _ _ _ B) as (_ & _ & ->).
      assert (Ht : isFinite (tailAbsoluteDisp q k) = false)
        by (apply mul_nonfinite_l, sub_nonfinite_l, Ha).
      destruct (getRelativeX_nonfinite q _ Ht) as [Hx _].
      destruct (tailType q); try exact Hx. apply add_nonfinite_l, Hx.
  - intros Hw. set (q := atStep p N).
    assert (Hwq : NumberRow.effectiveWrap q = true) by exact Hw.
    assert (Ha : isFinite (animatedTriggerCount (currentStep q) (movementValue q))
                 = false) by (apply animatedTriggerCount_nonfinite, H).
    unfold NumberRow.stepData. constructor.
    + apply getRelativeX_nonfinite; [apply mul_nonfinite_l, Ha | exact Hwq].
    + unfold NumberRow.tailMarkers. destruct (isTailEnabled q); [| constructor].
      apply Forall_forall. intros m Hm.
      destruct (tailLoop_In _ _ _ _ _ Hm) as (k & _ & B).
      destruct (tailBody_marker _ _ _ _ B) as (_ & _ & ->).
      assert (Ht : isFinite (tailAbsoluteDisp q k) = false)
        by (apply mul_nonfinite_l, sub_nonfinite_l, Ha).
      destruct (getRelativeX_nonfinite q _ Ht) as [_ Hx].
      rewrite (Hx Hwq). destruct (tailType q); reflexivity.
Qed.

Lemma nonfinite_step_propagates_witness :
  Forall (fun m => isFinite (x m) = false)
         (NumberRow.stepData sinApprox (atStep sampleRow NaN)).
Proof.
  exact (proj1 (nonfinite_step_propagates sinApprox sampleRow NaN eq_refl)).
Defined.

(** ** A row of rate zero *)

Lemma div_by_zero_nonfinite (N : number) (q : Q) :
  q == 0 -> isFinite (N / Num q)%js = false.
Proof.
  intros H. destruct N; simpl; try reflexivity.
  - rewrite (proj2 (Qeq_bool_iff q 0) H). apply scaleInf_nonfinite.
  - destruct (Qltb q 0); reflexivity.
  - destruct (Qltb q 0); reflexivity.
Qed.

Lemma mul_zero_step (a u : number) (q : Q) :
  q == 0 -> isFinite a = false -> (a * (Num q * u))%js = NaN.
Proof.
  intros Hq Ha.
  assert (Hu : (Num q * u)%js = NaN \/ exists z, (Num q * u)%js = Num z /\ z == 0).
  { destruct u as [u | | |]; simpl.
    - right. exists (q * u). split; [reflexivity |]. rewrite Hq. ring.
    - left. apply scaleInf_zero, Hq.
    - left. apply scaleInf_zero, Hq.
    - left. reflexivity. }
  destruct Hu as [-> | (z & -> & Hz)].
  - destruct a; reflexivity.
  - destruct a; simpl; try discriminate; try reflexivity;
      apply scaleInf_zero, Hz.
Qed.

Lemma getRelativeX_NaN (p : NumberRowProps) : NumberRow.getRelativeX p NaN = NaN.
Proof.
  unfold NumberRow.getRelativeX. destruct (NumberRow.effectiveWrap p); reflexivity.
Qed.

Lemma rows_rate_at_least_1 (s : App.State) :
  Forall (fun r => exists q, movementValue r = Num q /\ 1 <= q) (App.rows s).
Proof.
  unfold App.rows. constructor.
  - exists 1. split; [reflexivity | lra].
  - apply Forall_forall. intros r Hr. apply in_map_iff in Hr.
    destruct Hr as (val & <- & Hval).
    unfold App.followerRows in Hval. apply in_map_iff in Hval.
    destruct Hval as (i & <- & _).
    exists (inject_Z (Z.of_nat i + 1 + 1)). split; [reflexivity |].
    change 1 with (inject_Z 1) at 1. rewrite <- Zle_Qle. lia.
Qed.

Lemma scene_rate_at_least_1 (i : Z) :
  (1 <= i)%Z -> (1 <= Scene3D.movementValue i)%Z.
Proof.
  intros H. unfold Scene3D.movementValue.
  destruct (i =? 1)%Z eqn:E; [lia |]. apply Z.eqb_neq in E. lia.
Qed.

(** C4, counterexample.  The sample row at step value 2 with the rate set
    to zero: the quotient [N / movementValue] is evaluated (it is
    [Infinity]) and the row is not skipped: its list starts with a head
    marker, at position [NaN]. *)
Lemma zero_rate_row_emitted :
  movementValue (atRate (atStep sampleRow (Num 2)) (Num 0)) = Num 0
  /\ (currentStep (atRate (atStep sampleRow (Num 2)) (Num 0))
      / movementValue (atRate (atStep sampleRow (Num 2)) (Num 0)))%js = PInf
  /\ exists tail,
       NumberRow.stepData sinApprox (atRate (atStep sampleRow (Num 2)) (Num 0))
       = mkMarker NaN true (Num 1) None :: tail.
Proof.
  split; [reflexivity |]. split; [reflexivity |].
  eexists. reflexivity.
Qed.

(** C4, amended.  [stepData] has no guard against a rate of zero: for
    such a row the quotient [N / movementValue] is evaluated and is not
    finite, and the row still emits its head marker, at position [NaN].
    A zero divisor is excluded by construction only: every row [App]
    builds has a rate of at least 1, and so has every row of the 3D
    update loop. *)
Theorem zero_rate_not_skipped (Math_sin : Q -> Q) (p : NumberRowProps) (q : Q) :
  movementValue p = Num q -> q == 0 ->
  isFinite (currentStep p / movementValue p)%js = false
  /\ (exists tail,
        NumberRow.stepData Math_sin p = mkMarker NaN true (Num 1) None :: tail)
  /\ (forall s, Forall (fun r => exists v, movementValue r = Num v /\ 1 <= v)
                       (App.rows s))
  /\ (forall i, (1 <= i)%Z -> (1 <= Scene3D.movementValue i)%Z).
Proof.
  intros Ev Hq.
  assert (Hd : isFinite (currentStep p / movementValue p)%js = false)
    by (rewrite Ev; apply div_by_zero_nonfinite, Hq).
  split; [exact Hd |].
  split; [| split; [apply rows_rate_at_least_1 | apply scene_rate_at_least_1]].
  exists (NumberRow.tailMarkers Math_sin p).
  unfold NumberRow.stepData, NumberRow.headMarker. do 2 f_equal.
  unfold NumberRow.headAbsoluteDisplacement, NumberRow.unitStepInPixels.
  pose proof (animatedTriggerCount_nonfinite_quotient _ _ Hd) as Ha.
  rewrite Ev in *. rewrite (mul_zero_step _ _ _ Hq Ha).
  apply getRelativeX_NaN.
Qed.

Lemma zero_rate_not_skipped_witness :
  exists tail,
    NumberRow.stepData sinApprox (atRate (atStep sampleRow (Num 2)) (Num 0))
    = mkMarker NaN true (Num 1) None :: tail.
Proof.
  exact (proj1 (proj2 (zero_rate_not_skipped sinApprox
                         (atRate (atStep sampleRow (Num 2)) (Num 0)) 0
                         eq_refl (Qeq_refl 0)))).
Defined.

(** ** Wrapped positions: the interval *)

(** Whatever sine is used, as long as it is negative at 11.5 (as the
    sine is: 11.5 lies between [3 * pi] and [4 * pi]), the first trailing
    marker of [glitchRow] is pushed left of position 0. *)
Lemma glitch_left_of_zero (Math_sin : Q -> Q) :
  Math_sin (inject_Z 1 * (15 # 10) + 2 * 5) < 0 ->
  exists m, In m (NumberRow.stepData Math_sin glitchRow)
            /\ isHead m = false
            /\ (x m <? Num 0)%js = true.
Proof.
  intros H.
  eexists. split; [right; left; reflexivity |]. split; [reflexivity |].
  cbn -[Qmult Qplus Qminus Qopp Qdiv Qinv inject_Z Qltb].
  apply Qltb_lt. revert H.
  generalize (Math_sin (inject_Z 1 * (15 # 10) + 2 * 5)). intros s H.
  match goal with
  | |- ?c + s * 4 < 0 =>
      assert (E : c == 0) by (vm_compute; reflexivity); rewrite E
  end.
  lra.
Qed.

(** C3, counterexample.  [glitchRow] is in wrapped mode with a wrap width
    of 10, and its first trailing marker lies at about -3.5, outside
    [0, 10). *)
Lemma glitch_marker_out_of_range :
  NumberRow.effectiveWrap glitchRow = true
  /\ same (NumberRow.quantizedWrapWidth glitchRow) (Num 10)
  /\ exists m, In m (NumberRow.stepData sinApprox glitchRow)
               /\ (x m <? Num 0)%js = true
               /\ (x m <? Num (- (7 # 2)))%js = true
               /\ (Num (- (36 # 10)) <? x m)%js = true.
Proof.
  split; [reflexivity |]. split; [vm_compute; reflexivity |].
  eexists. split; [right; left; reflexivity |].
  repeat split; vm_compute; reflexivity.
Qed.

(** C3, amended.  In wrapped mode, for a finite step value [N >= 0], a
    rate [v >= 1] and an item size [u > 0]: the head marker, and with
    every tail style other than glitch every trailing marker, has its
    position in [0, quantizedWrapWidth).  A trailing marker of the glitch
    style is such a position plus the jitter [sin(k * 1.5 + N * 5) * 4]
    of its loop index [k], which can take it out of the interval. *)
Theorem wrapped_position_in_range
  (Math_sin : Q -> Q) (p : NumberRowProps) (N v u w : Q) :
  currentStep p = Num N -> movementValue p = Num v ->
  itemSize p = Num u -> wrapWidth p = Num w ->
  0 <= N -> 1 <= v -> 0 < u ->
  NumberRow.effectiveWrap p = true ->
  exists W,
    NumberRow.quantizedWrapWidth p = Num W /\ 0 < W
    /\ forall m, In m (NumberRow.stepData Math_sin p) ->
         exists X,
           x m = Num X
           /\ (isHead m = true \/ tailType p <> glitch -> 0 <= X /\ X < W)
           /\ (isHead m = false -> tailType p = glitch ->
               exists k r,
                 (1 <= k <= 30)%Z /\ 0 <= r /\ r < W
                 /\ X = r + Math_sin (inject_Z k * (15 # 10) + N * 5) * 4).
Proof.
  intros EN Ev Eu Ew HN Hv Hu Hwrap.
  destruct (quantizedWrapWidth_finite p u w Eu Ew Hu) as (W & EW & HW).
  assert (HW0 : 0 < W) by lra.
  exists W. split; [exact EW |]. split; [exact HW0 |].
  intros m [<- | Hm].
  - destruct (headAbsoluteDisplacement_nonneg p N v u EN Ev Eu HN Hv Hu)
      as (a & Ea & Ha).
    destruct (getRelativeX_range p Hwrap a W EW HW0 Ha) as (r & Er & Hr).
    exists r. simpl. rewrite Ea. split; [exact Er |].
    split; [intros _; exact Hr | discriminate].
  - unfold NumberRow.tailMarkers in Hm.
    destruct (isTailEnabled p); [| destruct Hm].
    destruct (tailLoop_In _ _ _ _ _ Hm) as (k & Hk & B).
    destruct (tailBody_shape _ _ _ _ B) as [E | (m' & E & Hhead)];
      [discriminate | injection E as <-].
    destruct (tailAbsoluteDisp_nonneg Math_sin p N v u EN Ev Eu Hv Hu k m B)
      as (a & Ea & Ha).
    destruct (getRelativeX_range p Hwrap a W EW HW0 Ha) as (r & Er & Hr).
    destruct (tailBody_marker _ _ _ _ B) as (_ & _ & Hx).
    rewrite Ea, Er in Hx.
    destruct (tailType p) eqn:Ht;
      try (exists r; split; [exact Hx |];
           split; [intros _; exact Hr | intros _; discriminate]).
    exists (r + Math_sin (inject_Z k * (15 # 10) + N * 5) * 4). split.
    + rewrite Hx. unfold jitter. rewrite EN. reflexivity.
    + split.
      * intros [Hh | Hg]; [congruence | contradiction].
      * intros _ _. exists k, r.
        unfold NumberRow.limit in Hk. rewrite Ht in Hk.
        repeat split; try lia; apply Hr.
Qed.

Lemma wrapped_position_in_range_witness :
  exists W,
    NumberRow.quantizedWrapWidth (atStep sampleRow (Num 7)) = Num W /\ 0 < W
    /\ forall m, In m (NumberRow.stepData sinApprox (atStep sampleRow (Num 7))) ->
         exists X, x m = Num X /\ 0 <= X /\ X < W.
Proof.
  destruct (wrapped_position_in_range sinApprox (atStep sampleRow (Num 7))
              7 1 1 10 eq_refl eq_refl eq_refl eq_refl
              ltac:(unfold Qle; simpl; lia) ltac:(unfold Qle; simpl; lia)
              eq_refl eq_refl) as (W & EW & HW & H).
  exists W. split; [exact EW |]. split; [exact HW |].
  intros m Hm. destruct (H m Hm) as (X & EX & Hin & _).
  exists X. split; [exact EX |]. apply Hin. right. discriminate.
Defined.

(** ** The sine at the jitter argument of [glitchRow] *)

Section RealSine.

Import Stdlib.Reals.Reals Stdlib.micromega.Lra Qreals.
Local Open Scope R_scope.

Lemma PI_between : 2875 / 1000 < PI /\ PI < 3833 / 1000.
Proof.
  destruct (PI_ineq 1) as [Hlo Hhi].
  unfold sum_f_R0, tg_alt, PI_tg in Hlo, Hhi. simpl in Hlo, Hhi.
  split; lra.
Qed.

(** 11.5 lies between [3 * PI] and [4 * PI], where the sine is negative. *)
Lemma real_sine_negative :
  Rtrigo_def.sin (Q2R (inject_Z 1 * (15 # 10) + 2 * 5)%Q) < 0.
Proof.
  destruct PI_between as [Hlo Hhi].
  assert (E : Q2R (inject_Z 1 * (15 # 10) + 2 * 5)%Q = 23 / 2).
  { unfold Q2R. simpl. lra. }
  rewrite E.
  replace (23 / 2) with ((23 / 2 - 2 * PI) + 2 * INR 1 * PI) by (simpl; lra).
  rewrite sin_period. apply sin_lt_0; lra.
Qed.

(** So every [Math_sin] that is negative where the sine of the reals is
    negative takes the first trailing marker of [glitchRow] out of the
    wrap interval. *)
Lemma glitch_left_of_zero_real (Math_sin : Q -> Q) :
  (forall a : Q, Rtrigo_def.sin (Q2R a) < 0 -> (Math_sin a < 0)%Q) ->
  exists m, In m (NumberRow.stepData Math_sin glitchRow)
            /\ isHead m = false
            /\ JS.lt (x m) (Num 0) = true.
Proof.
  intros H. apply glitch_left_of_zero, H, real_sine_negative.
Qed.

End RealSine.

(** ** The clock in reachable states *)

(** The row count never drops below 1, and outside the manual mode the
    clock is never playing. *)
Lemma reachable_invariant (w h : number) (s : App.State) :
  App.reachable w h s ->
  (1 <= App.rowCount s)%Z
  /\ (App.syncMode s <> App.manual -> App.isPlaying s = false).
Proof.
  induction 1 as [| s e _ [IHr IHp]].
  - split; [simpl; lia | intros H; reflexivity].
  - destruct s as [N playing wrap tail tt follow speed rc mode w' h' last].
    simpl in IHr, IHp.
    destruct e as [| | | m | v | parsed | | | | t | time now]; simpl.
    + unfold App.handlePlayPause. destruct mode; simpl; split;
        try exact IHr; congruence.
    + unfold App.handleStep. destruct mode; simpl; split; try exact IHr; auto.
    + split; [exact IHr | auto].
    + unfold App.selectSyncMode. destruct m; simpl; split;
        try exact IHr; auto; congruence.
    + split; assumption.
    + split; [lia | assumption].
    + split; assumption.
    + split; assumption.
    + destruct follow; simpl; split; assumption.
    + destruct tail; simpl; split; assumption.
    + unfold App.animate. destruct mode; simpl.
      * destruct playing; [destruct last |]; simpl; split; assumption.
      * split; [exact IHr | apply IHp; discriminate].
      * split; [exact IHr | apply IHp; discriminate].
Qed.

(** ** The scenarios of the specification *)

(** X22.  The trigger count never decreases as the step value grows. *)
Lemma triggerCount_monotone (v N1 N2 : Q) :
  1 <= v -> N1 <= N2 ->
  exists c1 c2, triggerCount (Num N1) (Num v) = Num c1
                /\ triggerCount (Num N2) (Num v) = Num c2 /\ c1 <= c2.
Proof.
  intros Hv HN. exists (countQ v N1), (countQ v N2).
  split; [apply triggerCount_finite, Hv |].
  split; [apply triggerCount_finite, Hv |].
  apply countQ_mono; [lra | exact HN].
Qed.

(** Scenario A: rate 1 at step value 0. *)
Example scenario_A :
  triggerCount (Num 0) (Num 1) = Num 0
  /\ animatedTriggerCount (Num 0) (Num 1) = Num 0
  /\ same (NumberRow.headAbsoluteDisplacement sampleRow) (Num 0).
Proof. repeat split. Qed.

(** Scenario B: rate 2 at step value 0.8, no easing yet. *)
Example scenario_B : animatedTriggerCount (Num (8 # 10)) (Num 2) = Num 0.
Proof. reflexivity. Qed.

(** Scenario C: rate 2 at step value 1.8, eased to 0.648. *)
Example scenario_C :
  same (animatedTriggerCount (Num (18 # 10)) (Num 2)) (Num (648 # 1000)).
Proof. vm_compute. reflexivity. Qed.

(** Scenario D: the echo style at the loop indices 5 and 15. *)
Example scenario_D :
  let tail := NumberRow.tailMarkers sinApprox
                (mkProps (Num 1) (Num 20) (Num 1) (Num 10) false 0 true false
                         echo (Num 0) (Num 10)) in
  length tail = 20%nat
  /\ option_map opacity (nth_error tail 4) = Some (Num (25 # 100))
  /\ option_map opacity (nth_error tail 14) = Some (Num (5 # 100)).
Proof. vm_compute. repeat split. Qed.

(** Scenario E: reset. *)
Example scenario_E (s : App.State) :
  App.currentStep (App.handleReset s) = Num 0
  /\ App.isPlaying (App.handleReset s) = false
  /\ App.syncMode (App.handleReset s) = App.manual.
Proof. repeat split. Qed.

(** * Further properties of the code *)

(** ** Integer step values *)

Lemma inject_Z_ge_1 (z : Z) : (1 <= z)%Z -> 1 <= inject_Z z.
Proof. intros H. change 1 with (inject_Z 1). rewrite <- Zle_Qle. exact H. Qed.

Lemma countQ_integers (n v : Z) :
  (1 <= v)%Z -> countQ (inject_Z v) (inject_Z n) = inject_Z (n / v).
Proof. intros Hv. unfold countQ. rewrite <- Zdiv_Qdiv. reflexivity. Qed.

Lemma easeQ_integers (n v : Z) :
  (1 <= v)%Z -> easeQ (inject_Z n) (inject_Z v) = inject_Z (n / v).
Proof.
  intros Hv. pose proof (countQ_integers n v Hv) as Ec.
  destruct (easeQ_cases (inject_Z v) (inject_Z n)) as [[_ E] | [Hd _]].
  - rewrite E. exact Ec.
  - exfalso. rewrite distQ_eq, Ec in Hd.
    assert (Hz : (1 <= (n / v + 1) * v - n)%Z).
    { pose proof (Z.mod_pos_bound n v ltac:(lia)).
      pose proof (Z.div_mod n v ltac:(lia)). nia. }
    apply inject_Z_ge_1 in Hz.
    unfold Z.sub in Hz.
    rewrite inject_Z_plus, inject_Z_mult, inject_Z_plus, inject_Z_opp in Hz.
    change (inject_Z 1) with 1 in Hz. lra.
Qed.

(** X1.  At an integer step value [n] a row of integer rate [v >= 1] is not
    easing: its animated trigger count is the integer quotient [n / v],
    and its head has travelled [n - n mod v] lanes, the largest multiple
    of [v] up to [n]. *)
Theorem integer_step_on_lane (p : NumberRowProps) (n v : Z) (u : Q) :
  (1 <= v)%Z -> movementValue p = ofZ v -> itemSize p = Num u ->
  triggerCount (ofZ n) (ofZ v) = ofZ (n / v)
  /\ animatedTriggerCount (ofZ n) (ofZ v) = ofZ (n / v)
  /\ same (NumberRow.headAbsoluteDisplacement (atStep p (ofZ n)))
          (Num (inject_Z (n - n mod v) * u)).
Proof.
  intros Hv Ev Eu. pose proof (inject_Z_ge_1 v Hv) as Hq.
  split; [| split].
  - unfold ofZ. rewrite (triggerCount_finite _ _ Hq), countQ_integers by exact Hv.
    reflexivity.
  - unfold ofZ. rewrite (animatedTriggerCount_ease _ _ Hq), easeQ_integers by exact Hv.
    reflexivity.
  - unfold ofZ in *.
    rewrite (headAbsoluteDisplacement_finite p (inject_Z n) (inject_Z v) u Hq Ev Eu).
    rewrite easeQ_integers by exact Hv. simpl.
    assert (Ez : (n - n mod v = n / v * v)%Z).
    { pose proof (Z.div_mod n v ltac:(lia)). lia. }
    rewrite Ez, inject_Z_mult. ring.
Qed.

Lemma integer_step_on_lane_witness :
  animatedTriggerCount (ofZ 7) (ofZ 3) = ofZ 2.
Proof.
  exact (proj1 (proj2 (integer_step_on_lane (atRate sampleRow (ofZ 3)) 7 3 1
                         ltac:(lia) eq_refl eq_refl))).
Defined.

(** ** The clock: stepping and frames *)

Lemma handleStep_finite (s : App.State) (N : Q) :
  App.currentStep s = Num N ->
  App.currentStep (App.handleStep s) = Num (inject_Z (Qfloor N) + 1)
  /\ App.syncMode (App.handleStep s) = App.manual
  /\ App.isPlaying (App.handleStep s) = false.
Proof.
  intros E. unfold App.handleStep.
  destruct s as [c playing wrap tail tt follow speed rc mode w h last].
  simpl in E. subst c. destruct mode; simpl; repeat split.
Qed.

Lemma Qfloor_succ (z : Z) : Qfloor (inject_Z z + 1) = (z + 1)%Z.
Proof.
  rewrite <- (Qfloor_Z (z + 1)). apply Qfloor_comp.
  rewrite inject_Z_plus. reflexivity.
Qed.

(** X2.  The step button moves a finite step value [N] to the next integer,
    [floor N + 1], which is above [N] by at most 1, and leaves the clock
    in manual mode and paused; pressed [n + 1] times it leads to
    [floor N + 1 + n]. *)
Theorem handleStep_next_integer (s : App.State) (N : Q) (n : nat) :
  App.currentStep s = Num N ->
  (exists M, App.currentStep (App.handleStep s) = Num M
             /\ M == inject_Z (Qfloor N + 1) /\ N < M /\ M <= N + 1)
  /\ same (App.currentStep (Nat.iter (S n) App.handleStep s))
          (Num (inject_Z (Qfloor N + 1 + Z.of_nat n)))
  /\ App.syncMode (Nat.iter (S n) App.handleStep s) = App.manual
  /\ App.isPlaying (Nat.iter (S n) App.handleStep s) = false.
Proof.
  intros E. split.
  - destruct (handleStep_finite s N E) as (E1 & _).
    exists (inject_Z (Qfloor N) + 1). split; [exact E1 |].
    pose proof (Qfloor_le N). pose proof (Qlt_floor N) as Hlt.
    rewrite inject_Z_plus in *. change (inject_Z 1) with 1 in *.
    repeat split; lra.
  - induction n as [| n IH].
    + change (Nat.iter 1 App.handleStep s) with (App.handleStep s).
      destruct (handleStep_finite s N E) as (E1 & E2 & E3).
      rewrite E1. simpl. split; [| split; assumption].
      rewrite Z.add_0_r, inject_Z_plus. reflexivity.
    + destruct IH as (IH1 & _).
      change (Nat.iter (S (S n)) App.handleStep s)
        with (App.handleStep (Nat.iter (S n) App.handleStep s)).
      destruct (App.currentStep (Nat.iter (S n) App.handleStep s))
        as [M | | |] eqn:EM; simpl in IH1; try contradiction.
      destruct (handleStep_finite _ M EM) as (E1 & E2 & E3).
      rewrite E1. simpl. split; [| split; assumption].
      rewrite (Qfloor_comp _ _ IH1), Qfloor_Z.
      rewrite <- (inject_Z_plus _ 1). apply inject_Z_injective. lia.
Qed.

Lemma handleStep_next_integer_witness :
  same (App.currentStep
          (Nat.iter 3 App.handleStep
             (App.setCurrentStep (App.initial (Num 800) (Num 600)) (Num (5 # 2)))))
       (Num 5).
Proof.
  exact (proj1 (proj2 (handleStep_next_integer
                         (App.setCurrentStep (App.initial (Num 800) (Num 600))
                                             (Num (5 # 2)))
                         (5 # 2) 2 eq_refl))).
Defined.

Lemma frames_snoc (s : App.State) (l : list (number * number)) (t now : number) :
  App.frames s (l ++ [(t, now)]) = App.animate (App.frames s l) t now.
Proof. unfold App.frames. rewrite fold_left_app. reflexivity. Qed.

(** X3.  While the clock is in manual mode and paused, no run of animation
    frames moves the step value or changes the mode. *)
Theorem paused_clock_ignores_frames
  (s : App.State) (l : list (number * number)) :
  App.syncMode s = App.manual -> App.isPlaying s = false ->
  App.currentStep (App.frames s l) = App.currentStep s
  /\ App.syncMode (App.frames s l) = App.manual
  /\ App.isPlaying (App.frames s l) = false.
Proof.
  revert s. induction l as [| [t now] l IH]; intros s Hm Hp.
  - repeat split; assumption.
  - change (App.frames s ((t, now) :: l))
      with (App.frames (App.animate s t now) l).
    assert (H : App.currentStep (App.animate s t now) = App.currentStep s
                /\ App.syncMode (App.animate s t now) = App.manual
                /\ App.isPlaying (App.animate s t now) = false).
    { unfold App.animate. rewrite Hm, Hp. simpl. repeat split; assumption. }
    destruct H as (H1 & H2 & H3).
    destruct (IH _ H2 H3) as (I1 & I2 & I3).
    rewrite I1, H1. repeat split; assumption.
Qed.

Lemma paused_clock_ignores_frames_witness :
  App.currentStep
    (App.frames (App.handleReset (App.initial (Num 800) (Num 600)))
                [(Num 16, Num 1000); (Num 32, Num 1016)])
  = Num 0.
Proof.
  exact (proj1 (paused_clock_ignores_frames
                  (App.handleReset (App.initial (Num 800) (Num 600)))
                  [(Num 16, Num 1000); (Num 32, Num 1016)] eq_refl eq_refl)).
Defined.

Lemma last_cons {A : Type} (a d : A) (l : list A) : last (a :: l) d = last l a.
Proof.
  revert a d. induction l as [| b l IH]; intros a d; [reflexivity |].
  change (last (a :: b :: l) d) with (last (b :: l) d).
  rewrite (IH b d), (IH b a). reflexivity.
Qed.

Lemma animate_playing (s : App.State) (c k t0 t : Q) (now : number) :
  App.syncMode s = App.manual -> App.isPlaying s = true ->
  App.currentStep s = Num c -> App.speedMultiplier s = Num k ->
  App.lastTime s = Some (Num t0) ->
  App.syncMode (App.animate s (Num t) now) = App.manual
  /\ App.isPlaying (App.animate s (Num t) now) = true
  /\ App.currentStep (App.animate s (Num t) now) = Num (c + (t - t0) * k)
  /\ App.speedMultiplier (App.animate s (Num t) now) = Num k
  /\ App.lastTime (App.animate s (Num t) now) = Some (Num t).
Proof.
  intros Hm Hp Hc Hk Hl. unfold App.animate.
  rewrite Hm, Hp, Hl. simpl. rewrite Hc, Hk. repeat split; assumption.
Qed.

(** X4.  In manual mode while playing, a run of frames advances the step
    value by the speed times the time elapsed between the last frame
    before the run and the last frame of the run, however that time is
    cut into frames; with a non-negative speed and a run that does not
    end before it starts, the step value does not decrease. *)
Theorem playing_clock_advances
  (s : App.State) (c k t0 : Q) (l : list (Q * number)) :
  App.syncMode s = App.manual -> App.isPlaying s = true ->
  App.currentStep s = Num c -> App.speedMultiplier s = Num k ->
  App.lastTime s = Some (Num t0) ->
  exists c',
    App.currentStep
      (App.frames s (map (fun tn => (Num (fst tn), snd tn)) l)) = Num c'
    /\ c' == c + (last (map fst l) t0 - t0) * k
    /\ (0 <= k -> t0 <= last (map fst l) t0 -> c <= c').
Proof.
  assert (Main : forall (l : list (Q * number)) s c t0,
    App.syncMode s = App.manual -> App.isPlaying s = true ->
    App.currentStep s = Num c -> App.speedMultiplier s = Num k ->
    App.lastTime s = Some (Num t0) ->
    exists c',
      App.currentStep
        (App.frames s (map (fun tn => (Num (fst tn), snd tn)) l)) = Num c'
      /\ c' == c + (last (map fst l) t0 - t0) * k).
  { clear. induction l as [| [t now] l IH]; intros s c t0 Hm Hp Hc Hk Hl.
    - exists c. split; [exact Hc | simpl; ring].
    - destruct (animate_playing s c k t0 t now Hm Hp Hc Hk Hl)
        as (A1 & A2 & A3 & A4 & A5).
      destruct (IH _ _ _ A1 A2 A3 A4 A5) as (c' & E & Hc').
      exists c'. split; [exact E |].
      simpl map. rewrite last_cons, Hc'. simpl fst. ring. }
  intros Hm Hp Hc Hk Hl.
  destruct (Main l s c t0 Hm Hp Hc Hk Hl) as (c' & E & Hc').
  exists c'. split; [exact E |]. split; [exact Hc' |].
  intros Hk0 Ht. rewrite Hc'. nra.
Qed.

Lemma playing_clock_advances_witness :
  exists c',
    App.currentStep
      (App.frames
         (App.setLastTime
            (App.setIsPlaying (App.initial (Num 800) (Num 600)) true)
            (Some (Num 0)))
         [(Num 16, Num 0); (Num 48, Num 0)]) = Num c'
    /\ c' == (48 # 100).
Proof.
  destruct (playing_clock_advances
              (App.setLastTime
                 (App.setIsPlaying (App.initial (Num 800) (Num 600)) true)
                 (Some (Num 0)))
              0 (1 # 100) 0 [(16, Num 0); (48, Num 0)]
              eq_refl eq_refl eq_refl eq_refl eq_refl) as (c' & E & Hc & _).
  exists c'. split; [exact E |]. rewrite Hc. reflexivity.
Defined.

Lemma animate_syncMode (s : App.State) (t now : number) :
  App.syncMode (App.animate s t now) = App.syncMode s.
Proof.
  unfold App.animate.
  destruct s as [c playing wrap tail tt follow speed rc mode w h last].
  destruct mode; simpl; [destruct playing; [destruct last |] |..]; reflexivity.
Qed.

Lemma frames_syncMode (s : App.State) (l : list (number * number)) :
  App.syncMode (App.frames s l) = App.syncMode s.
Proof.
  revert s. induction l as [| [t now] l IH]; intros s; [reflexivity |].
  change (App.frames s ((t, now) :: l)) with (App.frames (App.animate s t now) l).
  rewrite IH. apply animate_syncMode.
Qed.

(** X5.  In the two wall-clock modes the step value after a run of frames is
    read from the clock at the last frame alone ([Date.now() / 1000] in
    seconds mode, [Date.now()] in ms mode): the earlier step value, the
    frame times and the speed play no part. *)
Theorem wall_clock_sets_step
  (s : App.State) (l : list (number * number)) (t now : number) :
  App.syncMode s <> App.manual ->
  App.currentStep (App.frames s (l ++ [(t, now)]))
  = (if App.SyncMode_eqb (App.syncMode s) App.seconds
     then (now / Num 1000)%js else now)
  /\ App.syncMode (App.frames s (l ++ [(t, now)])) = App.syncMode s.
Proof.
  intros Hm. rewrite frames_snoc. split.
  - pose proof (frames_syncMode s l) as E. unfold App.animate. rewrite E.
    destruct (App.syncMode s); [contradiction | reflexivity | reflexivity].
  - rewrite animate_syncMode. apply frames_syncMode.
Qed.

Lemma wall_clock_sets_step_witness :
  App.currentStep
    (App.frames (App.selectSyncMode (App.initial (Num 800) (Num 600)) App.seconds)
                ([(Num 16, Num 5000)] ++ [(Num 32, Num 7000)]))
  = (Num 7000 / Num 1000)%js.
Proof.
  exact (proj1 (wall_clock_sets_step
                  (App.selectSyncMode (App.initial (Num 800) (Num 600)) App.seconds)
                  [(Num 16, Num 5000)] (Num 32) (Num 7000)
                  ltac:(discriminate))).
Defined.

(** X6.  In every state the controls can lead to, the [isPlaying] flag shown
    by the control bar is the clock's own, the clock is never playing
    outside the manual mode, and the row count is at least 1. *)
Theorem controlBar_shows_clock (w h : number) (s : App.State) :
  App.reachable w h s ->
  App.controlBarIsPlaying s = App.isPlaying s
  /\ (App.syncMode s <> App.manual -> App.isPlaying s = false)
  /\ (1 <= App.rowCount s)%Z.
Proof.
  intros H. destruct (reachable_invariant w h s H) as [Hr Hp].
  split; [| split; assumption].
  unfold App.controlBarIsPlaying.
  destruct (App.syncMode s); simpl.
  - apply andb_true_r.
  - rewrite Hp by discriminate. reflexivity.
  - rewrite Hp by discriminate. reflexivity.
Qed.

Lemma controlBar_shows_clock_witness :
  App.controlBarIsPlaying
    (App.handle (App.handle (App.initial (Num 800) (Num 600)) App.PlayPause)
                (App.SelectSyncMode App.ms))
  = false.
Proof.
  exact (proj1 (controlBar_shows_clock (Num 800) (Num 600) _
                  (App.reachable_handle _ _ _ _
                     (App.reachable_handle _ _ _ _
                        (App.reachable_initial _ _))))).
Defined.

(** ** The active row ([activeTurnIndex]) *)

Lemma Qtrunc_integers (n i : Z) :
  (0 < i)%Z -> Qtrunc (inject_Z n / inject_Z i) = Z.quot n i.
Proof.
  intros Hi. destruct i as [| i | i]; try lia.
  unfold Qtrunc. simpl. rewrite Z.mul_1_r. reflexivity.
Qed.

Lemma rem_integers (n i : Z) :
  (0 < i)%Z ->
  exists q, (ofZ n %% ofZ i)%js = Num q /\ q == inject_Z (Z.rem n i).
Proof.
  intros Hi. unfold ofZ, rem.
  rewrite Qeq_bool_nonzero.
  - eexists. split; [reflexivity |].
    rewrite (Qtrunc_integers n i Hi).
    rewrite (Z.rem_eq n i) by lia. unfold Z.sub.
    rewrite inject_Z_plus, inject_Z_opp, inject_Z_mult. ring.
  - intros E. unfold Qeq in E. simpl in E. lia.
Qed.

Lemma strictEq_zero (q : Q) : strictEq (Num q) (Num 0) = true <-> q == 0.
Proof. simpl. apply Qeq_bool_iff. Qed.

Lemma inject_Z_zero (z : Z) : inject_Z z == 0 <-> z = 0%Z.
Proof. unfold Qeq. simpl. lia. Qed.

Lemma activeTurnScan_divides (n : Z) (i : Z) :
  (0 < i)%Z ->
  strictEq (ofZ n %% ofZ i)%js (Num 0) = true <-> (i | n)%Z.
Proof.
  intros Hi. destruct (rem_integers n i Hi) as (q & -> & Hq).
  rewrite strictEq_zero, Hq, inject_Z_zero. apply Z.rem_divide. lia.
Qed.

(** The scan returns the greatest index up to [m] that divides [n]. *)
Lemma activeTurnScan_greatest (n : Z) (m : nat) :
  let r := App.activeTurnScan (ofZ n) m in
  (0 <= r <= Z.of_nat m)%Z
  /\ (r <> 0%Z -> (r | n)%Z)
  /\ (forall i, (r < i <= Z.of_nat m)%Z -> ~ (i | n)%Z).
Proof.
  induction m as [| m IH].
  - simpl. split; [lia |]. split; [lia |]. intros i Hi. lia.
  - cbv zeta in *.
    change (App.activeTurnScan (ofZ n) (S m)) with
      (if strictEq (ofZ n %% ofZ (Z.of_nat (S m)))%js (Num 0)
       then Z.of_nat (S m) else App.activeTurnScan (ofZ n) m).
    destruct (strictEq _ _) eqn:E.
    + apply activeTurnScan_divides in E; [| lia].
      split; [lia |]. split; [intros _; exact E | intros i Hi; lia].
    + destruct IH as (I1 & I2 & I3).
      split; [lia |]. split; [exact I2 |].
      intros i Hi. destruct (Z.eq_dec i (Z.of_nat (S m))) as [-> | NE].
      * intros D. apply activeTurnScan_divides in D; [congruence | lia].
      * apply I3. lia.
Qed.

(** X7.  For a finite step value [N] and at least one follower row, the
    active index is [-1] while [floor N] is 0, and otherwise the greatest
    [i] between 1 and [rowCount] that divides [floor N].  It is never 0
    (the value shown as the leader's turn), because 1 divides every
    integer. *)
Theorem activeTurnIndex_greatest_divisor (s : App.State) (N : Q) :
  App.currentStep s = Num N -> (1 <= App.rowCount s)%Z ->
  (Qfloor N = 0%Z -> App.activeTurnIndex s = (-1)%Z)
  /\ (Qfloor N <> 0%Z ->
      (1 <= App.activeTurnIndex s <= App.rowCount s)%Z
      /\ (App.activeTurnIndex s | Qfloor N)%Z
      /\ forall i, (App.activeTurnIndex s < i <= App.rowCount s)%Z ->
                   ~ (i | Qfloor N)%Z)
  /\ App.activeTurnIndex s <> 0%Z.
Proof.
  intros E Hrc. unfold App.activeTurnIndex. rewrite E.
  change (floor (Num N)) with (ofZ (Qfloor N)).
  pose proof (activeTurnScan_greatest (Qfloor N) (Z.to_nat (App.rowCount s)))
    as (S1 & S2 & S3).
  rewrite Z2Nat.id in S1, S3 by lia.
  assert (Hone : App.activeTurnScan (ofZ (Qfloor N)) (Z.to_nat (App.rowCount s))
                 <> 0%Z).
  { intros Hz. rewrite Hz in S3. apply (S3 1%Z); [lia |]. apply Z.divide_1_l. }
  destruct (strictEq (ofZ (Qfloor N)) (Num 0)) eqn:Ez.
  - apply (proj1 (strictEq_zero _)) in Ez.
    apply (proj1 (inject_Z_zero _)) in Ez.
    split; [reflexivity |]. split; [intros Hn; contradiction | lia].
  - assert (Hn : Qfloor N <> 0%Z).
    { intros Hz. rewrite Hz in Ez. discriminate. }
    split; [intros Hz; contradiction |]. split; [| exact Hone].
    intros _. split; [lia |]. split; [apply S2, Hone | exact S3].
Qed.

Lemma activeTurnIndex_greatest_divisor_witness :
  App.activeTurnIndex
    (App.setCurrentStep (App.initial (Num 800) (Num 600)) (Num 12)) <> 0%Z.
Proof.
  exact (proj2 (proj2 (activeTurnIndex_greatest_divisor
                         (App.setCurrentStep (App.initial (Num 800) (Num 600))
                                             (Num 12))
                         12 eq_refl ltac:(simpl; lia)))).
Defined.

(** ** Remainders of any sign *)

Lemma Qtrunc_opp (q : Q) : Qtrunc (- q) = (- Qtrunc q)%Z.
Proof.
  destruct q as [n d]. unfold Qtrunc. simpl.
  apply Z.quot_opp_l. discriminate.
Qed.

Lemma Qtrunc_bounds (q : Q) :
  inject_Z (Qtrunc q) - 1 < q /\ q < inject_Z (Qtrunc q) + 1.
Proof.
  destruct (Qlt_le_dec q 0) as [Hneg | Hpos].
  - assert (H : 0 <= - q) by lra.
    pose proof (Qtrunc_nonneg _ H) as E. rewrite Qtrunc_opp in E.
    assert (Et : Qtrunc q = (- Qfloor (- q))%Z) by lia.
    rewrite Et, inject_Z_opp.
    pose proof (Qfloor_le (- q)). pose proof (Qlt_floor (- q)) as Hlt.
    rewrite inject_Z_plus in Hlt. change (inject_Z 1) with 1 in Hlt.
    split; lra.
  - rewrite (Qtrunc_nonneg _ Hpos).
    pose proof (Qfloor_le q). pose proof (Qlt_floor q) as Hlt.
    rewrite inject_Z_plus in Hlt. change (inject_Z 1) with 1 in Hlt.
    split; lra.
Qed.

(** [a % s] for a positive [s]: within [s] of zero, and [a] shifted by a
    whole number of [s]. *)
Lemma rem_bounds (a s : Q) :
  0 < s ->
  exists r, (Num a %% Num s)%js = Num r
            /\ - s < r /\ r < s
            /\ r == a - s * inject_Z (Qtrunc (a / s)).
Proof.
  intros Hs. unfold rem. rewrite Qeq_bool_nonzero by lra.
  eexists. split; [reflexivity |].
  destruct (Qtrunc_bounds (a / s)) as [Hlo Hhi].
  assert (Ea : a == a / s * s) by (field; lra).
  revert Hlo Hhi Ea. generalize (inject_Z (Qtrunc (a / s))). intros t.
  generalize (a / s). intros q Hlo Hhi Ea.
  assert (H1 : (t - 1) * s < q * s) by (apply Qmult_lt_compat_r; assumption).
  assert (H2 : q * s < (t + 1) * s) by (apply Qmult_lt_compat_r; assumption).
  repeat split; try reflexivity; lra.
Qed.

(** ** The background grid and the floating label *)

Lemma actualItemSize_pos (s : App.State) (h : Q) :
  (0 <= App.rowCount s)%Z -> App.height s = Num h -> 0 < h ->
  exists u, App.actualItemSize s = Num u /\ 0 < u
            /\ u * inject_Z (App.rowCount s + 1) == h.
Proof.
  intros Hrc Eh Hh. exists (h / inject_Z (App.rowCount s + 1)).
  assert (Hd : 0 < inject_Z (App.rowCount s + 1)).
  { change 0 with (inject_Z 0). rewrite <- Zlt_Qlt. lia. }
  split; [apply actualItemSize_finite; assumption |].
  split; [apply Qlt_shift_div_l; lra | field; lra].
Qed.

(** X8.  With follow enabled and finite inputs, the offset of the background
    grid lies in [0, actualItemSize): it is the raw offset
    [width / 2 - focusX - actualItemSize / 2] moved by a whole number of
    grid cells, also when the raw offset is negative. *)
Theorem backgroundX_within_cell (s : App.State) (N w h : Q) :
  (0 <= App.rowCount s)%Z -> App.isFollowEnabled s = true ->
  App.currentStep s = Num N -> App.width s = Num w ->
  App.height s = Num h -> 0 < h ->
  exists b u f (k : Z),
    App.actualItemSize s = Num u /\ App.focusX s = Num f
    /\ App.backgroundX s = Num b
    /\ 0 <= b /\ b < u
    /\ b == w / 2 - f - u / 2 + inject_Z k * u.
Proof.
  intros Hrc Hf EN Ew Eh Hh.
  destruct (actualItemSize_pos s h Hrc Eh Hh) as (u & Eu & Hu & _).
  assert (Hone : 1 <= 1) by (unfold Qle; simpl; lia).
  assert (Efx : App.focusX s = Num (easeQ N 1 * u)).
  { unfold App.focusX. rewrite Hf, leaderXOffset_eq, EN, Eu.
    rewrite (animatedTriggerCount_ease N 1 Hone). reflexivity. }
  unfold App.backgroundX. rewrite Hf, Efx, Eu, Ew. simpl negb. cbv iota.
  set (raw := (Num w / Num 2 - Num (easeQ N 1 * u) - Num u / Num 2)%js).
  assert (Eraw : raw = Num (w / 2 + - (easeQ N 1 * u) + - (u / 2))) by reflexivity.
  rewrite Eraw.
  destruct (rem_bounds (w / 2 + - (easeQ N 1 * u) + - (u / 2)) u Hu)
    as (r & Er & Hlo & Hhi & Hr).
  rewrite Er.
  change (Num r + Num u)%js with (Num (r + u)).
  destruct (rem_bounds (r + u) u Hu) as (b & Eb & _ & _ & Hb).
  destruct (rem_range (r + u) u ltac:(lra) Hu) as (b' & Eb' & Hb0 & Hb1).
  rewrite Eb in Eb'. injection Eb' as <-.
  exists b, u, (easeQ N 1 * u),
    (1 - Qtrunc ((w / 2 + - (easeQ N 1 * u) + - (u / 2)) / u)
       - Qtrunc ((r + u) / u))%Z.
  split; [reflexivity |]. split; [reflexivity |]. split; [exact Eb |].
  split; [exact Hb0 |]. split; [exact Hb1 |].
  unfold Z.sub. rewrite !inject_Z_plus, !inject_Z_opp.
  change (inject_Z 1) with 1.
  revert Hb Hr. generalize (inject_Z (Qtrunc ((r + u) / u))). intros t2.
  generalize (inject_Z (Qtrunc ((w / 2 + - (easeQ N 1 * u) + - (u / 2)) / u))).
  intros t1 Hb Hr. lra.
Qed.

Lemma backgroundX_within_cell_witness :
  exists b, App.backgroundX
              (App.setCurrentStep (App.initial (Num 800) (Num 600)) (Num 30))
            = Num b /\ 0 <= b.
Proof.
  destruct (backgroundX_within_cell
              (App.setCurrentStep (App.initial (Num 800) (Num 600)) (Num 30))
              30 800 600 ltac:(simpl; lia) eq_refl eq_refl eq_refl eq_refl
              ltac:(reflexivity))
    as (b & u & f & k & _ & _ & Eb & Hb & _).
  exists b. split; assumption.
Defined.



(** ** The layout of the rows *)

(** X10.  The rows are laid out for [rowCount + 1] slots below a container
    offset of one slot, but there are [rowCount + 1] of them: the top
    edge of the last follower row is at the full window height. *)
Theorem last_row_at_window_bottom (s : App.State) (h : Q) :
  (1 <= App.rowCount s)%Z -> App.height s = Num h ->
  In (App.followerRow s (App.rowCount s)) (App.rows s)
  /\ same (App.rowTopInWindow s (App.followerRow s (App.rowCount s))) (Num h)
  /\ Forall (fun r => (0 <= rowIndex r <= App.rowCount s)%Z) (App.rows s).
Proof.
  intros Hrc Eh. split; [| split].
  - unfold App.rows. right. apply in_map. unfold App.followerRows.
    apply in_map_iff. exists (Z.to_nat (App.rowCount s - 1)).
    split; [lia |]. apply in_seq. lia.
  - unfold App.rowTopInWindow, NumberRow.rowTop. simpl.
    rewrite (actualItemSize_finite s h ltac:(lia) Eh). simpl.
    assert (Hd : ~ inject_Z (App.rowCount s + 1) == 0).
    { intros E. unfold Qeq in E. simpl in E. lia. }
    rewrite inject_Z_plus in *. change (inject_Z 1) with 1 in *. field. exact Hd.
  - unfold App.rows. constructor; [simpl; lia |].
    apply Forall_forall. intros r Hr. apply in_map_iff in Hr.
    destruct Hr as (val & <- & Hval). unfold App.followerRows in Hval.
    apply in_map_iff in Hval. destruct Hval as (i & <- & Hi).
    apply in_seq in Hi. simpl. lia.
Qed.

Lemma last_row_at_window_bottom_witness :
  same (App.rowTopInWindow (App.initial (Num 800) (Num 600))
          (App.followerRow (App.initial (Num 800) (Num 600)) 15))
       (Num 600).
Proof.
  exact (proj1 (proj2 (last_row_at_window_bottom
                         (App.initial (Num 800) (Num 600)) 600
                         ltac:(simpl; lia) eq_refl))).
Defined.

(** ** The wrap width *)

(** X11.  For a finite viewport width [w] and an item size [u > 0], the wrap
    width is a whole number [n >= 1] of lanes: the largest that fits the
    viewport ([n * u <= w < (n + 1) * u]) when at least one lane fits,
    and one lane otherwise. *)
Theorem quantizedWrapWidth_whole_lanes (p : NumberRowProps) (w u : Q) :
  wrapWidth p = Num w -> itemSize p = Num u -> 0 < u ->
  exists W (n : Z),
    NumberRow.quantizedWrapWidth p = Num W
    /\ (1 <= n)%Z /\ W == inject_Z n * u
    /\ (u <= w -> W <= w /\ w < W + u)
    /\ (w < u -> W == u).
Proof.
  intros Ew Eu Hu. unfold NumberRow.quantizedWrapWidth.
  rewrite Ew, Eu, div_finite by lra. unfold floor, max, lt.
  pose proof (floor_div_le w u Hu) as Hlo.
  pose proof (floor_div_lt w u Hu) as Hhi.
  destruct (Qltb (inject_Z (Qfloor (w / u))) 1) eqn:E.
  - apply Qltb_lt in E. exists (1 * u), 1%Z.
    split; [reflexivity |]. split; [lia |]. split; [reflexivity |].
    assert (Hc : inject_Z (Qfloor (w / u)) <= 0).
    { change 1 with (inject_Z 1) in E. rewrite <- Zlt_Qlt in E.
      change 0 with (inject_Z 0). rewrite <- Zle_Qle. lia. }
    assert (Hw : w < u) by nra.
    split; [intros H; lra | intros _; ring].
  - apply Qltb_ge in E. exists (inject_Z (Qfloor (w / u)) * u), (Qfloor (w / u)).
    split; [reflexivity |].
    split; [change 1 with (inject_Z 1) in E; rewrite <- Zle_Qle in E; exact E |].
    split; [reflexivity |].
    split; [intros _; split; lra | intros H; nra].
Qed.

Lemma quantizedWrapWidth_whole_lanes_witness :
  exists W, NumberRow.quantizedWrapWidth sampleRow = Num W /\ W == 10.
Proof.
  destruct (quantizedWrapWidth_whole_lanes sampleRow 10 1 eq_refl eq_refl
              ltac:(reflexivity)) as (W & n & EW & _).
  exists W. split; [exact EW |].
  injection EW as <-. reflexivity.
Defined.

(** ** The tail: how many markers, how faint, how small *)

Section TailFacts.

Variable Math_sin : Q -> Q.
Variable p : NumberRowProps.

(** A pass that does not break found a trigger index of at least 0. *)
Lemma tailBody_continues (k : Z) (l : list Marker) :
  NumberRow.tailBody Math_sin p k = Some l ->
  (animatedTriggerCount (currentStep p) (movementValue p) - ofZ k <? Num 0)%js
  = false.
Proof.
  unfold NumberRow.tailBody. destruct (_ <? _)%js; [discriminate | reflexivity].
Qed.

(** The opacity and the scale of the marker a pass pushes. *)
Lemma tailBody_attributes (k : Z) (m : Marker) :
  NumberRow.tailBody Math_sin p k = Some [m] ->
  (opacity m >? Num (1 # 100))%js = true
  /\ opacity m = match tailType p with
                 | echo => if (ofZ k <? Num 10)%js
                           then Num (25 # 100) else Num (5 # 100)
                 | _ => linearOpacity p k
                 end
  /\ scale m = Some match tailType p with
                    | stepped => max (Num (6 # 10))
                                     (Num 1 - ofZ k / ofZ (NumberRow.limit p))%js
                    | _ => Num 1
                    end.
Proof.
  unfold NumberRow.tailBody. fold (linearOpacity p k).
  destruct (_ <? _)%js; [discriminate |].
  destruct (_ && _); [discriminate |].
  destruct (_ >? _)%js eqn:G; intros E; [| discriminate].
  injection E as <-. simpl. split; [exact G |].
  split; destruct (tailType p); reflexivity.
Qed.

Lemma tailLoop_at_most_triggers (N v : Q) (fuel : nat) (k : Z) :
  currentStep p = Num N -> movementValue p = Num v -> 1 <= v ->
  (length (NumberRow.tailLoop Math_sin p fuel k)
   <= Z.to_nat (Qfloor (N / v) + 1 - k))%nat.
Proof.
  intros EN Ev Hv.
  pose proof (easeQ_upper v Hv N) as Hup. unfold countQ in Hup.
  revert Hup. generalize (Qfloor (N / v)). intros c Hup. revert k.
  induction fuel as [| fuel IH]; intros k; simpl; [lia |].
  destruct (k <=? NumberRow.limit p)%Z; [| simpl; lia].
  destruct (NumberRow.tailBody Math_sin p k) as [pushed |] eqn:B; [| simpl; lia].
  pose proof (tailBody_continues k pushed B) as Hidx.
  rewrite EN, Ev, (animatedTriggerCount_ease _ _ Hv) in Hidx. simpl in Hidx.
  apply Qltb_ge in Hidx.
  assert (Hk : (k <= c)%Z).
  { assert (H : inject_Z k < inject_Z (c + 1)).
    { rewrite inject_Z_plus. change (inject_Z 1) with 1. lra. }
    rewrite <- Zlt_Qlt in H. lia. }
  rewrite length_app. specialize (IH (k + NumberRow.stepSize p)%Z).
  pose proof (stepSize_pos p).
  destruct (tailBody_shape Math_sin p k pushed B) as [-> | (m' & -> & _)];
    simpl; lia.
Qed.

End TailFacts.

(** X12.  A row never shows more trailing markers than the triggers it has
    completed, [floor (N / v)]; before its first trigger ([N < v]) it
    shows none. *)
Theorem tail_at_most_triggers
  (Math_sin : Q -> Q) (p : NumberRowProps) (N v : Q) :
  currentStep p = Num N -> movementValue p = Num v -> 1 <= v ->
  (length (NumberRow.tailMarkers Math_sin p) <= Z.to_nat (Qfloor (N / v)))%nat
  /\ (N < v -> NumberRow.stepData Math_sin p = [NumberRow.headMarker p]).
Proof.
  intros EN Ev Hv.
  assert (H : (length (NumberRow.tailMarkers Math_sin p)
               <= Z.to_nat (Qfloor (N / v)))%nat).
  { unfold NumberRow.tailMarkers. destruct (isTailEnabled p); [| simpl; lia].
    pose proof (tailLoop_at_most_triggers Math_sin p N v
                  (Z.to_nat (NumberRow.limit p)) 1 EN Ev Hv). lia. }
  split; [exact H |]. intros Hlt.
  assert (Hf : (Qfloor (N / v) <= 0)%Z).
  { assert (Hq : N / v < 1) by (apply Qlt_shift_div_r; lra).
    pose proof (Qfloor_le (N / v)) as Hfl. revert Hq Hfl.
    generalize (N / v). intros q Hq Hfl.
    assert (Hz : inject_Z (Qfloor q) < inject_Z 1) by (change (inject_Z 1) with 1; lra).
    rewrite <- Zlt_Qlt in Hz. lia. }
  unfold NumberRow.stepData. f_equal.
  destruct (NumberRow.tailMarkers Math_sin p) as [| m l]; [reflexivity |].
  cbn [length] in H. lia.
Qed.

Lemma tail_at_most_triggers_witness :
  (length (NumberRow.tailMarkers sinApprox (atStep sampleRow (Num (7 # 2))))
   <= 3)%nat.
Proof.
  exact (proj1 (tail_at_most_triggers sinApprox (atStep sampleRow (Num (7 # 2)))
                  (7 # 2) 1 eq_refl eq_refl ltac:(unfold Qle; simpl; lia))).
Defined.

(** X13.  Every trailing marker is fainter than the head: its opacity is above
    the cutoff 0.01 and at most 0.4, at most 0.2 for the ghost style. *)
Theorem tail_opacity_bounds (Math_sin : Q -> Q) (p : NumberRowProps) :
  Forall (fun m => exists o, opacity m = Num o
                             /\ (1 # 100) < o /\ o <= (4 # 10)
                             /\ (tailType p = ghost -> o <= (2 # 10)))
         (NumberRow.tailMarkers Math_sin p).
Proof.
  unfold NumberRow.tailMarkers. destruct (isTailEnabled p); [| constructor].
  apply Forall_forall. intros m Hm.
  destruct (tailLoop_In _ _ _ _ _ Hm) as (k & Hk & B).
  destruct (tailBody_attributes _ _ _ _ B) as (G & Eo & _).
  assert (Hlin : tailType p <> echo ->
                 opacity m = linearOpacity p k ->
                 exists o, opacity m = Num o /\ (1 # 100) < o /\ o <= (4 # 10)
                           /\ (tailType p = ghost -> o <= (2 # 10))).
  { intros _ E. rewrite E in *.
    destruct (linearOpacity_finite p k) as (q & Hq & Elin).
    rewrite Elin in *.
    pose proof (limit_pos p) as HL.
    assert (HLq : 0 < inject_Z (NumberRow.limit p))
      by (change 0 with (inject_Z 0); rewrite <- Zlt_Qlt; lia).
    assert (Hr : 0 <= inject_Z k / inject_Z (NumberRow.limit p)).
    { apply Qle_shift_div_l; [exact HLq |]. rewrite Qmult_0_l.
      change 0 with (inject_Z 0). rewrite <- Zle_Qle. lia. }
    revert Hq Hr. generalize (inject_Z k / inject_Z (NumberRow.limit p)).
    intros r Hq Hr.
    destruct (Qltb 0 q) eqn:T; [| discriminate G].
    unfold gt, lt in G. apply Qltb_lt in G.
    exists q. split; [reflexivity |]. split; [exact G |].
    unfold NumberRow.opacityBase in Hq.
    clear Eo E Elin B.
    destruct (tailType p); (split; [nra | intros Hg; try discriminate Hg; nra]). }
  destruct (tailType p) eqn:Ht; try (apply Hlin; [discriminate | exact Eo]).
  destruct (ofZ k <? Num 10)%js; rewrite Eo; eexists;
    (split; [reflexivity |]); repeat split; try discriminate;
    unfold Qlt, Qle; simpl; lia.
Qed.

(** X14.  Every trailing marker carries a scale between 0.6 and 1: exactly 1
    for every style but stepped, and below 1 for the stepped style; the
    head marker carries none. *)
Theorem tail_scale_bounds (Math_sin : Q -> Q) (p : NumberRowProps) :
  scale (NumberRow.headMarker p) = None
  /\ Forall (fun m => exists c, scale m = Some (Num c)
                                /\ (6 # 10) <= c /\ c <= 1
                                /\ (tailType p <> stepped -> c = 1)
                                /\ (tailType p = stepped -> c < 1))
            (NumberRow.tailMarkers Math_sin p).
Proof.
  split; [reflexivity |].
  unfold NumberRow.tailMarkers. destruct (isTailEnabled p); [| constructor].
  apply Forall_forall. intros m Hm.
  destruct (tailLoop_In _ _ _ _ _ Hm) as (k & Hk & B).
  destruct (tailBody_attributes _ _ _ _ B) as (_ & _ & Es).
  assert (Hone : exists c, Some (Num 1) = Some (Num c)
                           /\ (6 # 10) <= c /\ c <= 1 /\ c = 1).
  { exists 1. repeat split; unfold Qle; simpl; lia. }
  destruct (tailType p) eqn:Ht;
    try (destruct Hone as (c & Ec & H1 & H2 & H3); rewrite Es, Ec; exists c;
         repeat split; try assumption; intros; congruence).
  assert (EL : NumberRow.limit p = 100%Z)
    by (unfold NumberRow.limit; rewrite Ht; reflexivity).
  rewrite Es, EL. unfold ofZ. rewrite div_finite by discriminate.
  assert (Hr : 0 < inject_Z k / inject_Z 100).
  { apply Qlt_shift_div_l; [reflexivity |]. rewrite Qmult_0_l.
    change 0 with (inject_Z 0). rewrite <- Zlt_Qlt. lia. }
  revert Hr. generalize (inject_Z k / inject_Z 100). intros r Hr.
  unfold max, sub, neg, add, lt.
  destruct (Qltb (6 # 10) (1 + - r)) eqn:T.
  - apply Qltb_lt in T. exists (1 + - r).
    split; [reflexivity |]. repeat split; try lra. intros H. congruence.
  - exists (6 # 10). split; [reflexivity |].
    repeat split; try (unfold Qle, Qlt; simpl; lia). intros H. congruence.
Qed.

(** ** The echo style *)

Section Echo.

Variable Math_sin : Q -> Q.
Variable p : NumberRowProps.
Hypothesis is_echo : tailType p = echo.

Lemma echo_pushes (k : Z) (l : list Marker) :
  NumberRow.tailBody Math_sin p k = Some l -> exists m, l = [m].
Proof.
  unfold NumberRow.tailBody. rewrite is_echo.
  destruct (_ <? _)%js; [discriminate |].
  destruct (_ && _); [discriminate |].
  destruct (ofZ k <? Num 10)%js; simpl; intros E; injection E as <-;
    eexists; reflexivity.
Qed.

Lemma echo_tail_nth (fuel : nat) (k : Z) (i : nat) (m : Marker) :
  nth_error (NumberRow.tailLoop Math_sin p fuel k) i = Some m ->
  NumberRow.tailBody Math_sin p (k + Z.of_nat i) = Some [m].
Proof.
  revert k i. induction fuel as [| fuel IH]; intros k i; simpl.
  - destruct i; discriminate.
  - destruct (k <=? NumberRow.limit p)%Z; [| destruct i; discriminate].
    destruct (NumberRow.tailBody Math_sin p k) as [pushed |] eqn:B;
      [| destruct i; discriminate].
    destruct (echo_pushes k pushed B) as (m0 & ->).
    destruct i as [| i]; simpl.
    + intros E. injection E as <-. rewrite Z.add_0_r. exact B.
    + intros E. apply IH in E.
      assert (Es : NumberRow.stepSize p = 1%Z)
        by (unfold NumberRow.stepSize; rewrite is_echo; reflexivity).
      rewrite Es in E.
      replace (k + Z.pos (Pos.of_succ_nat i))%Z with (k + 1 + Z.of_nat i)%Z by lia.
      exact E.
Qed.

End Echo.

(** X15.  In the echo style no trailing marker is dropped for its opacity, and
    the opacity depends on the place in the tail alone: 0.25 for the
    first nine trailing markers and 0.05 for the ones after them. *)
Theorem echo_opacity_by_position
  (Math_sin : Q -> Q) (p : NumberRowProps) (i : nat) (m : Marker) :
  tailType p = echo ->
  nth_error (NumberRow.tailMarkers Math_sin p) i = Some m ->
  opacity m = (if (i <? 9)%nat then Num (25 # 100) else Num (5 # 100)).
Proof.
  intros Ht Hn. unfold NumberRow.tailMarkers in Hn.
  destruct (isTailEnabled p); [| destruct i; discriminate].
  apply (echo_tail_nth Math_sin p Ht) in Hn.
  destruct (tailBody_attributes _ _ _ _ Hn) as (_ & Eo & _).
  rewrite Ht in Eo. rewrite Eo. unfold ofZ, lt.
  destruct (i <? 9)%nat eqn:Ei.
  - apply Nat.ltb_lt in Ei.
    assert (T : Qltb (inject_Z (1 + Z.of_nat i)) 10 = true).
    { apply Qltb_lt. change 10 with (inject_Z 10). rewrite <- Zlt_Qlt. lia. }
    rewrite T. reflexivity.
  - apply Nat.ltb_ge in Ei.
    assert (T : Qltb (inject_Z (1 + Z.of_nat i)) 10 = false).
    { apply Qltb_ge. change 10 with (inject_Z 10). rewrite <- Zle_Qle. lia. }
    rewrite T. reflexivity.
Qed.

Lemma echo_opacity_by_position_witness :
  option_map opacity (nth_error (NumberRow.tailMarkers sinApprox echoRow) 14)
  = Some (Num (5 # 100)).
Proof.
  destruct (nth_error (NumberRow.tailMarkers sinApprox echoRow) 14)
    as [m |] eqn:E.
  - simpl. f_equal.
    exact (echo_opacity_by_position sinApprox echoRow 14 m eq_refl E).
  - vm_compute in E. discriminate E.
Defined.

(** ** The tail as a train behind the head *)

Section TailTrain.

Variable Math_sin : Q -> Q.
Variable p : NumberRowProps.
Variables N v u : Q.

Hypothesis step_finite : currentStep p = Num N.
Hypothesis rate_finite : movementValue p = Num v.
Hypothesis rate_ge_1 : 1 <= v.
Hypothesis size_finite : itemSize p = Num u.

Lemma headAbsoluteDisplacement_value :
  NumberRow.headAbsoluteDisplacement p = Num (easeQ N v * (v * u)).
Proof.
  unfold NumberRow.headAbsoluteDisplacement, NumberRow.unitStepInPixels.
  rewrite step_finite, rate_finite, size_finite.
  rewrite (animatedTriggerCount_ease _ _ rate_ge_1). reflexivity.
Qed.

Lemma tailAbsoluteDisp_value (k : Z) :
  tailAbsoluteDisp p k = Num ((easeQ N v + - inject_Z k) * (v * u)).
Proof.
  unfold tailAbsoluteDisp, NumberRow.unitStepInPixels.
  rewrite step_finite, rate_finite, size_finite.
  rewrite (animatedTriggerCount_ease _ _ rate_ge_1). reflexivity.
Qed.

Lemma jitter_value (k : Z) :
  jitter Math_sin p k = Num (Math_sin (inject_Z k * (15 # 10) + N * 5) * 4).
Proof. unfold jitter. rewrite step_finite. reflexivity. Qed.

(** From the relative position of a displacement to that of a marker. *)
Lemma train_marker (X : Q) (k : Z) (m : Marker) (r : Q) :
  NumberRow.tailBody Math_sin p k = Some [m] ->
  NumberRow.getRelativeX p (tailAbsoluteDisp p k) = Num r ->
  r == X - inject_Z k * (v * u) ->
  exists Xm, x m = Num Xm
             /\ Xm == X - inject_Z k * (v * u)
                      + styleJitter Math_sin (tailType p) N k.
Proof.
  intros B Er Hr. destruct (tailBody_marker _ _ _ _ B) as (_ & _ & Ex).
  rewrite Er, jitter_value in Ex. unfold styleJitter.
  destruct (tailType p); rewrite Ex; simpl; eexists;
    (split; [reflexivity |]); rewrite Hr; ring.
Qed.

End TailTrain.

(** X16.  Without wrapping, for finite inputs and a rate [v >= 1], the tail is
    a train behind the head: the trailing marker of loop index [k] sits
    [k * v * itemSize] left of the head marker (plus the jitter, for the
    glitch style). *)
Theorem tail_train_unwrapped
  (Math_sin : Q -> Q) (p : NumberRowProps) (N v u f vw : Q) :
  currentStep p = Num N -> movementValue p = Num v -> 1 <= v ->
  itemSize p = Num u -> focusX p = Num f -> viewportWidth p = Num vw ->
  NumberRow.effectiveWrap p = false ->
  exists X,
    x (NumberRow.headMarker p) = Num X
    /\ Forall (fun m =>
                exists k Xm,
                  (1 <= k <= NumberRow.limit p)%Z /\ x m = Num Xm
                  /\ Xm == X - inject_Z k * (v * u)
                           + styleJitter Math_sin (tailType p) N k)
              (NumberRow.tailMarkers Math_sin p).
Proof.
  intros EN Ev Hv Eu Ef Evw Hw.
  assert (Erel : forall a, NumberRow.getRelativeX p (Num a)
                           = Num (a + - f + vw / 2 + - (u / 2))).
  { intros a. unfold NumberRow.getRelativeX. rewrite Hw, Ef, Evw, Eu.
    reflexivity. }
  exists (easeQ N v * (v * u) + - f + vw / 2 + - (u / 2)). split.
  { unfold NumberRow.headMarker. simpl.
    rewrite (headAbsoluteDisplacement_value p N v u EN Ev Hv Eu). apply Erel. }
  unfold NumberRow.tailMarkers. destruct (isTailEnabled p); [| constructor].
  apply Forall_forall. intros m Hm.
  destruct (tailLoop_In _ _ _ _ _ Hm) as (k & Hk & B).
  destruct (train_marker Math_sin p N v u EN
              (easeQ N v * (v * u) + - f + vw / 2 + - (u / 2)) k m
              ((easeQ N v + - inject_Z k) * (v * u) + - f + vw / 2 + - (u / 2)) B)
    as (Xm & Ex & HX).
  - rewrite (tailAbsoluteDisp_value p N v u EN Ev Hv Eu). apply Erel.
  - ring.
  - exists k, Xm. split; [exact Hk |]. split; assumption.
Qed.

Lemma tail_train_unwrapped_witness :
  exists X, x (NumberRow.headMarker echoRow) = Num X.
Proof.
  destruct (tail_train_unwrapped sinApprox echoRow 20 1 1 0 10
              eq_refl eq_refl ltac:(unfold Qle; simpl; lia)
              eq_refl eq_refl eq_refl eq_refl) as (X & EX & _).
  exists X. exact EX.
Defined.



(** ** The colour of a row *)

Section ColorBands.

Import Stdlib.Strings.String.

(** X18.  The leader row ([rowIndex = 0]) has one fixed colour whatever the
    palette.  Any other row of a finite rate [v >= 0] gets a hue inside
    the band of its palette: [280, 340) for neon, [120, 200) for forest,
    [35, 75) for gold, [0, 360) for harmonic and for every unknown
    palette name; monochrome has hue and saturation 0 and a lightness in
    [70, 100). *)
Theorem color_in_palette_band (rowIndex : Z) (v : Q) (palette : string) :
  0 <= v ->
  (forall mv, NumberRow.color 0 mv palette
              = NumberRow.mkHsl (Num 250) (Num 70) (Num 60))
  /\ (rowIndex <> 0%Z ->
      exists a,
        0 <= a
        /\ (palette = "neon"%string ->
            NumberRow.color rowIndex (Num v) palette
            = NumberRow.mkHsl (Num a) (Num 90) (Num 65)
            /\ 280 <= a /\ a < 340)
        /\ (palette = "forest"%string ->
            NumberRow.color rowIndex (Num v) palette
            = NumberRow.mkHsl (Num a) (Num 60) (Num 55)
            /\ 120 <= a /\ a < 200)
        /\ (palette = "gold"%string ->
            NumberRow.color rowIndex (Num v) palette
            = NumberRow.mkHsl (Num a) (Num 85) (Num 60)
            /\ 35 <= a /\ a < 75)
        /\ (palette = "monochrome"%string ->
            NumberRow.color rowIndex (Num v) palette
            = NumberRow.mkHsl (Num 0) (Num 0) (Num a)
            /\ 70 <= a /\ a < 100)
        /\ (palette <> "neon"%string -> palette <> "forest"%string ->
            palette <> "gold"%string -> palette <> "monochrome"%string ->
            NumberRow.color rowIndex (Num v) palette
            = NumberRow.mkHsl (Num a) (Num 70) (Num 60)
            /\ a < 360)).
Proof.
  intros Hv. split; [reflexivity |]. intros Hri.
  assert (Ei : (rowIndex =? 0)%Z = false) by (apply Z.eqb_neq; exact Hri).
  destruct (rem_range (v * (1375 # 10)) 360 ltac:(nra) ltac:(reflexivity))
    as (h0 & Eh & Hh0 & Hh1).
  unfold NumberRow.color. rewrite Ei.
  change (Num v * Num (1375 # 10))%js with (Num (v * (1375 # 10))).
  rewrite Eh.
  destruct (rem_range h0 60 Hh0 ltac:(reflexivity)) as (r60 & E60 & L60 & U60).
  destruct (rem_range h0 80 Hh0 ltac:(reflexivity)) as (r80 & E80 & L80 & U80).
  destruct (rem_range h0 40 Hh0 ltac:(reflexivity)) as (r40 & E40 & L40 & U40).
  destruct (rem_range h0 30 Hh0 ltac:(reflexivity)) as (r30 & E30 & L30 & U30).
  rewrite E60, E80, E40, E30.
  destruct (String.eqb palette "neon") eqn:P1.
  { apply String.eqb_eq in P1. subst palette. exists (r60 + 280).
    split; [lra |].
    repeat split; try discriminate; try lra; try congruence;
      intros; contradiction. }
  destruct (String.eqb palette "forest") eqn:P2.
  { apply String.eqb_eq in P2. subst palette. exists (r80 + 120).
    split; [lra |].
    repeat split; try discriminate; try lra; try congruence;
      intros; contradiction. }
  destruct (String.eqb palette "gold") eqn:P3.
  { apply String.eqb_eq in P3. subst palette. exists (r40 + 35).
    split; [lra |].
    repeat split; try discriminate; try lra; try congruence;
      intros; contradiction. }
  destruct (String.eqb palette "monochrome") eqn:P4.
  { apply String.eqb_eq in P4. subst palette. exists (70 + r30).
    split; [lra |].
    repeat split; try discriminate; try lra; try congruence;
      intros; contradiction. }
  apply String.eqb_neq in P1, P2, P3, P4. exists h0.
  split; [exact Hh0 |].
  repeat split; try (intros; contradiction); try reflexivity; lra.
Qed.

Lemma color_in_palette_band_witness :
  NumberRow.color 0 (Num 1) "gold"%string
  = NumberRow.mkHsl (Num 250) (Num 70) (Num 60).
Proof.
  exact (proj1 (color_in_palette_band 3 4 "gold"%string
                  ltac:(unfold Qle; simpl; lia)) (Num 1)).
Defined.

End ColorBands.

(** ** The instances of the 3D scene *)

Lemma blocksToShow_eq (tail : bool) :
  Scene3D.blocksToShow tail = Scene3D.maxBlocksPerRow tail.
Proof. destruct tail; reflexivity. Qed.

Lemma blockLoop_length (N : number) (tail : bool) (fuel : nat) (v k : Z) :
  (length (Scene3D.blockLoop N tail fuel v k)
   <= Z.to_nat (Scene3D.blocksToShow tail - k))%nat.
Proof.
  revert k. induction fuel as [| fuel IH]; intros k; simpl; [lia |].
  destruct (k <? Scene3D.blocksToShow tail)%Z eqn:E; [| simpl; lia].
  apply Z.ltb_lt in E.
  destruct (Scene3D.blockBody N tail v k); [| simpl; lia].
  simpl. specialize (IH (k + 1)%Z). lia.
Qed.

Lemma flat_map_length_le {A B : Type} (f : A -> list B) (l : list A) (n : nat) :
  (forall a, length (f a) <= n)%nat ->
  (length (flat_map f l) <= length l * n)%nat.
Proof.
  intros H. induction l as [| a l IH]; simpl; [lia |].
  rewrite length_app. specialize (H a). lia.
Qed.

Lemma lanes_length (rowCount : Z) :
  length (Scene3D.lanes rowCount) = Z.to_nat (rowCount + 1).
Proof. unfold Scene3D.lanes. rewrite length_map, length_seq. reflexivity. Qed.

(** X19.  Whatever the step value, the row count and the tail switch, one
    update writes at most [maxInstances] instances, the capacity the
    instanced mesh was created with, and at most [maxBlocksPerRow] per
    lane. *)
Theorem update_within_capacity (N : number) (tail : bool) (rowCount : Z) :
  (length (Scene3D.update N tail rowCount)
   <= Z.to_nat (Scene3D.maxInstances rowCount tail))%nat
  /\ forall v, (length (Scene3D.rowBlocks N tail v)
                <= Z.to_nat (Scene3D.maxBlocksPerRow tail))%nat.
Proof.
  assert (Hrow : forall v, (length (Scene3D.rowBlocks N tail v)
                            <= Z.to_nat (Scene3D.maxBlocksPerRow tail))%nat).
  { intros v. unfold Scene3D.rowBlocks.
    pose proof (blockLoop_length N tail
                  (Z.to_nat (Scene3D.blocksToShow tail)) v 0) as H.
    rewrite <- blocksToShow_eq. lia. }
  split; [| exact Hrow].
  unfold Scene3D.update, Scene3D.maxInstances.
  pose proof (flat_map_length_le (Scene3D.rowBlocks N tail)
                (Scene3D.lanes rowCount) _ Hrow) as H.
  rewrite lanes_length in H.
  assert (Hm : (0 < Scene3D.maxBlocksPerRow tail)%Z) by (destruct tail; reflexivity).
  destruct (Z_le_gt_dec 0 (rowCount + 1)) as [Hp | Hn].
  - rewrite Z2Nat.inj_mul by lia. exact H.
  - replace (Z.to_nat (rowCount + 1)) with 0%nat in H by lia. simpl in H. lia.
Qed.

Lemma lane_rate_ge_1 (v : Z) :
  (1 <= v)%Z -> 1 <= inject_Z (Scene3D.movementValue v).
Proof. intros H. apply inject_Z_ge_1, scene_rate_at_least_1, H. Qed.

(** For a finite step value [N >= 0] every lane draws its head block,
    at [animatedCount * laneWidth] with scale 1; with the tail off that
    is the lane's only block. *)
Lemma rowBlocks_head (N : Q) (tail : bool) (v : Z) :
  0 <= N -> (1 <= v)%Z ->
  exists b rest X,
    Scene3D.rowBlocks (Num N) tail v = b :: rest
    /\ Scene3D.positionX b = Num X
    /\ X == easeQ N (inject_Z (Scene3D.movementValue v)) * 12
    /\ Scene3D.blockScale b = Num 1
    /\ (tail = false -> rest = []).
Proof.
  intros HN Hv. pose proof (lane_rate_ge_1 v Hv) as Hr.
  pose proof (easeQ_nonneg N _ HN Hr) as Ha.
  set (a := easeQ N (inject_Z (Scene3D.movementValue v))) in *.
  assert (Eb : exists b, Scene3D.blockBody (Num N) tail v 0 = Some b
                         /\ Scene3D.positionX b = Num ((a + - inject_Z 0) * 12)
                         /\ Scene3D.blockScale b = Num 1).
  { unfold Scene3D.blockBody.
    change (Scene3D.animatedCount (Num N) (ofZ (Scene3D.movementValue v)))
      with (animatedTriggerCount (Num N)
              (Num (inject_Z (Scene3D.movementValue v)))).
    rewrite (animatedTriggerCount_ease _ _ Hr). fold a.
    change (Num a - ofZ 0)%js with (Num (a + - inject_Z 0)).
    assert (T : (Num (a + - inject_Z 0) <? Num 0)%js = false).
    { apply Qltb_ge. change (inject_Z 0) with 0. lra. }
    rewrite T. eexists. split; [reflexivity |]. split; reflexivity. }
  destruct Eb as (b & Eb & Ex & Es).
  assert (Hx : (a + - inject_Z 0) * 12 == a * 12)
    by (change (inject_Z 0) with 0; ring).
  destruct tail.
  - eexists b, _, _. split; [| split; [exact Ex | split; [exact Hx |]]].
    + unfold Scene3D.rowBlocks.
      change (Z.to_nat (Scene3D.blocksToShow true)) with (S 39).
      cbn [Scene3D.blockLoop]. rewrite Eb. reflexivity.
    + split; [exact Es | discriminate].
  - exists b, [], ((a + - inject_Z 0) * 12).
    split; [| split; [exact Ex | split; [exact Hx |]]].
    + unfold Scene3D.rowBlocks.
      change (Z.to_nat (Scene3D.blocksToShow false)) with 1%nat.
      cbn [Scene3D.blockLoop]. rewrite Eb. reflexivity.
    + split; [exact Es | reflexivity].
Qed.

Lemma lanes_ge_1 (rowCount : Z) : Forall (fun v => (1 <= v)%Z) (Scene3D.lanes rowCount).
Proof.
  unfold Scene3D.lanes. apply Forall_forall. intros v Hv.
  apply in_map_iff in Hv. destruct Hv as (i & <- & _). lia.
Qed.

(** X20.  For a finite step value [N >= 0] one update draws every lane: at
    least one block for each of the [rowCount + 1] lanes, and with the
    tail off exactly one each. *)
Theorem update_draws_every_lane (N : Q) (tail : bool) (rowCount : Z) :
  0 <= N ->
  (Z.to_nat (rowCount + 1) <= length (Scene3D.update (Num N) tail rowCount))%nat
  /\ (tail = false ->
      length (Scene3D.update (Num N) tail rowCount) = Z.to_nat (rowCount + 1)).
Proof.
  intros HN. rewrite <- lanes_length. unfold Scene3D.update.
  pose proof (lanes_ge_1 rowCount) as Hl.
  induction Hl as [| v l Hv _ [IH1 IH2]]; [split; reflexivity |].
  destruct (rowBlocks_head N tail v HN Hv) as (b & rest & X & E & _ & _ & _ & Hr).
  simpl. rewrite length_app, E. simpl. split; [lia |].
  intros Ht. rewrite (Hr Ht), (IH2 Ht). reflexivity.
Qed.

Lemma update_draws_every_lane_witness :
  length (Scene3D.update (Num 5) false 15) = 16%nat.
Proof.
  exact (proj2 (update_draws_every_lane 5 false 15
                  ltac:(unfold Qle; simpl; lia)) eq_refl).
Defined.

Lemma blockLoop_first_two_lanes (N : number) (tail : bool) (fuel : nat) (k : Z) :
  map Scene3D.positionX (Scene3D.blockLoop N tail fuel 1 k)
  = map Scene3D.positionX (Scene3D.blockLoop N tail fuel 2 k)
  /\ map Scene3D.blockHue (Scene3D.blockLoop N tail fuel 1 k)
     = map Scene3D.blockHue (Scene3D.blockLoop N tail fuel 2 k).
Proof.
  revert k. induction fuel as [| fuel IH]; intros k; [split; reflexivity |].
  cbn [Scene3D.blockLoop].
  destruct (k <? Scene3D.blocksToShow tail)%Z; [| split; reflexivity].
  unfold Scene3D.blockBody.
  change (Scene3D.movementValue 2) with 1%Z.
  change (Scene3D.movementValue 1) with 1%Z.
  destruct (_ <? _)%js; [split; reflexivity |].
  destruct (IH (k + 1)%Z) as [IHx IHh].
  cbn [map Scene3D.positionX Scene3D.blockHue]. rewrite IHx, IHh.
  split; reflexivity.
Qed.

(** X21.  The first two lanes of the 3D scene both run at the rate 1, so their
    blocks have the same positions along the lane and the same hue,
    whatever the step value; lane [v >= 2] runs at the rate [v - 1].  The
    second row of the 2D view, by contrast, has the rate 2. *)
Theorem first_two_lanes_coincide (N : number) (tail : bool) :
  map Scene3D.positionX (Scene3D.rowBlocks N tail 1)
  = map Scene3D.positionX (Scene3D.rowBlocks N tail 2)
  /\ map Scene3D.blockHue (Scene3D.rowBlocks N tail 1)
     = map Scene3D.blockHue (Scene3D.rowBlocks N tail 2)
  /\ (forall v, (2 <= v)%Z -> Scene3D.movementValue v = (v - 1)%Z)
  /\ (forall s, movementValue (App.followerRow s 1) = ofZ 2).
Proof.
  split; [apply blockLoop_first_two_lanes |].
  split; [apply blockLoop_first_two_lanes |].
  split; [| reflexivity].
  intros v Hv. unfold Scene3D.movementValue.
  destruct (v =? 1)%Z eqn:E; [apply Z.eqb_eq in E; lia | reflexivity].
Qed.

(** ** The trigger count *)

Lemma triggerCount_monotone_witness :
  exists c1 c2, triggerCount (Num 3) (Num 2) = Num c1
                /\ triggerCount (Num (9 # 2)) (Num 2) = Num c2 /\ c1 <= c2.
Proof.
  exact (triggerCount_monotone 2 3 (9 # 2)
           ltac:(unfold Qle; simpl; lia) ltac:(unfold Qle; simpl; lia)).
Defined.
